(** * vmkteam/cron: the job manager, its middleware and its state tracker

    A shallow embedding of [cron.go], [middleware.go] and [state.go]:
    the registry and its validation, the middleware chain, the two
    concurrency coordinators ([WithSkipActive], [WithMaintenance]), the
    per-job state record and its single update operation, activation
    ([Run]) and the manual trigger ([ManualRun]).

    Sequential code is embedded as functions that pass the manager and
    the world explicitly.  Concurrent invocations are embedded as
    interleavings of the atomic sections of the same functions (every
    mutex-protected block is one step). *)

From Stdlib Require Import ZArith Lia Bool List Ascii String.
From stdpp Require Import base option list gmap sets strings.

Local Open Scope Z_scope.
Local Open Scope string_scope.
Local Open Scope list_scope.

(** ** Errors

    Go's [error] is a nullable interface: [option error] here, [None]
    for [nil].  The three package-level sentinels are created once by
    [errors.New] and compared by identity; every other leaf error (a
    parser error, a business failure) is [Opaque].  [Wrapped] is what
    [fmt.Errorf] builds for a [%w] verb, [Joined] what [errors.Join]
    builds. *)

Inductive sentinel : Type :=
  | ErrSkipped
  | ErrNotFound
  | ErrDuplicate.

#[local] Set Warnings "-register-all".

Inductive error : Type :=
  | Sentinel (s : sentinel)
  | Opaque (text : string)
  | Wrapped (text : string) (inner : error)
  | Joined (errs : list error).

Definition sentinel_eqb (a b : sentinel) : bool :=
  match a, b with
  | ErrSkipped, ErrSkipped => true
  | ErrNotFound, ErrNotFound => true
  | ErrDuplicate, ErrDuplicate => true
  | _, _ => false
  end.

Definition sentinel_text (s : sentinel) : string :=
  match s with
  | ErrSkipped => "skipped"
  | ErrNotFound => "job not found"
  | ErrDuplicate => "duplicate cron name"
  end.

(** [err.Error()]. *)
Fixpoint Error (e : error) : string :=
  match e with
  | Sentinel s => sentinel_text s
  | Opaque t => t
  | Wrapped t _ => t
  | Joined es =>
      (fix join (l : list error) : string :=
         match l with
         | [] => ""
         | [x] => Error x
         | x :: rest => Error x +:+ String "010"%char (join rest)
         end) es
  end.

(** [errors.Is(err, target)] for a sentinel target: the chain (the tree,
    under [Joined]) is walked through [Unwrap] and every node is
    compared with the target. *)
Fixpoint errors_Is_chain (e : error) (target : sentinel) : bool :=
  match e with
  | Sentinel s => sentinel_eqb s target
  | Opaque _ => false
  | Wrapped _ inner => errors_Is_chain inner target
  | Joined es =>
      (fix any (l : list error) : bool :=
         match l with
         | [] => false
         | x :: rest => errors_Is_chain x target || any rest
         end) es
  end.

Definition errors_Is (err : option error) (target : sentinel) : bool :=
  match err with
  | None => false
  | Some e => errors_Is_chain e target
  end.

(** [fmt.Errorf("%w: %s", err, name)] *)
Definition Errorf_w_colon (e : error) (name : string) : error :=
  Wrapped (Error e +:+ ": " +:+ name) e.

(** ** Strings

    Names are byte strings, as Go has them.  [strings.ToLower] and
    [strings.EqualFold] belong to the Go library: they decode UTF-8 and
    fold every Unicode letter, the first by the lower-case mapping, the
    second by simple case folding, which identifies more strings (the
    long s with [s], the Kelvin sign with [k]).  The code that calls
    them, [validateJobs] and [ManualRun], takes them as parameters
    named as in the source, and what is proved of that code is proved
    for every such function; nothing is assumed about how the two
    relate.

    [ToLower_ascii] and [EqualFold_ascii] are the two library functions
    on strings of ASCII bytes, where both fold [A]..[Z] to [a]..[z] and
    keep every other byte.  They evaluate the code on the concrete
    managers below, whose names are ASCII. *)

Definition lower_ascii (c : ascii) : ascii :=
  let n := nat_of_ascii c in
  if ((65 <=? n) && (n <=? 90))%nat then ascii_of_nat (n + 32) else c.

Fixpoint ToLower_ascii (s : string) : string :=
  match s with
  | EmptyString => EmptyString
  | String c rest => String (lower_ascii c) (ToLower_ascii rest)
  end.

Definition EqualFold_ascii (s t : string) : bool :=
  String.eqb (ToLower_ascii s) (ToLower_ascii t).

(** ** Phases and schedules *)

Inductive cronState : Type :=
  | stateIdle
  | stateDisabled
  | stateRunning
  | stateSkipped.

Definition cronState_string (s : cronState) : string :=
  match s with
  | stateIdle => "idle"
  | stateDisabled => "disabled"
  | stateRunning => "running"
  | stateSkipped => "skipped"
  end.

Definition cronState_eqb (a b : cronState) : bool :=
  String.eqb (cronState_string a) (cronState_string b).

Definition Schedule : Type := string.

(** [func (ss Schedule) IsActive() bool] *)
Definition IsActive (ss : Schedule) : bool :=
  negb (String.eqb ss (cronState_string stateDisabled)) && negb (String.eqb ss "").

(** ** Time

    One monotonic clock, in nanoseconds; the zero [time.Time] is [0].
    [time.Since(t)] reads the clock and subtracts. *)

Definition Time : Type := Z.
Definition Duration : Type := Z.

Definition time_Since (now t : Time) : Duration := now - t.

(** ** Contexts

    A [context.Context] is read through three typed accessors only; the
    bag of values is a record of optional annotations. *)

Record Context : Type := mkContext {
  ctx_name : option string;
  ctx_maintenance : option bool;
  ctx_isDevel : option bool
}.

Definition Background : Context :=
  {| ctx_name := None; ctx_maintenance := None; ctx_isDevel := None |}.

Definition NewMaintenanceContext (ctx : Context) (isMaintenance : bool) : Context :=
  {| ctx_name := ctx_name ctx;
     ctx_maintenance := Some isMaintenance;
     ctx_isDevel := ctx_isDevel ctx |}.

Definition MaintenanceFromContext (ctx : Context) : bool :=
  match ctx_maintenance ctx with
  | Some r => r
  | None => false
  end.

Definition NewNameContext (ctx : Context) (name : string) : Context :=
  {| ctx_name := Some name;
     ctx_maintenance := ctx_maintenance ctx;
     ctx_isDevel := ctx_isDevel ctx |}.

Definition NameFromContext (ctx : Context) : string :=
  match ctx_name ctx with
  | Some v => v
  | None => ""
  end.

Definition NewIsDevelContext (ctx : Context) (isDevel : bool) : Context :=
  {| ctx_name := ctx_name ctx;
     ctx_maintenance := ctx_maintenance ctx;
     ctx_isDevel := Some isDevel |}.

Definition IsDevelFromContext (ctx : Context) : bool :=
  match ctx_isDevel ctx with
  | Some b => b
  | None => false
  end.

(** ** The world a job function runs in

    Everything a [Func] can touch outside the manager: the set of
    active names that the closure of [WithSkipActive] owns, the clock,
    and a log of observable events (what the logging middleware
    prints, what a job does). *)

Inductive event : Type :=
  | EvEnter (label : string)
  | EvExit (label : string)
  | EvJob (name : string).

Record World : Type := mkWorld {
  active : gset string;
  clock : Time;
  trace : list event
}.

Definition set_active (a : gset string) (w : World) : World :=
  {| active := a; clock := clock w; trace := trace w |}.

Definition emit (e : event) (w : World) : World :=
  {| active := active w; clock := clock w; trace := trace w ++ [e] |}.

(** What a call yields: it returns an error value, or it panics.  The
    value of a panic is the run-time error of a call through a nil
    function, an [error] ([panic(err)]), or any other value, kept as
    the text that [%v] prints for it. *)

Inductive panic_value : Type :=
  | NilFuncCall
  | PanicError (e : error)
  | PanicValue (v : string).

Inductive outcome : Type :=
  | Returned (err : option error)
  | Panicked (p : panic_value).

Definition Func : Type := Context -> World -> World * outcome.
Definition MiddlewareFunc : Type := Func -> Func.

(** ** Middleware *)

(** [WithSkipActive]: the two critical sections of the guard, then the
    middleware built from them. *)

(** Lines 228-236: test and insert under [mu].  [None] is the branch
    that returns [ErrSkipped]. *)
Definition skipActive_enter (name : string) (a : gset string) : option (gset string) :=
  if decide (name ∈ a) then None else Some ({[name]} ∪ a).

(** Lines 237-241: the deferred delete under [mu]. *)
Definition skipActive_exit (name : string) (a : gset string) : gset string :=
  a ∖ {[name]}.

Definition WithSkipActive : MiddlewareFunc :=
  fun next ctx w =>
    let name := NameFromContext ctx in
    match skipActive_enter name (active w) with
    | None => (w, Returned (Some (Sentinel ErrSkipped)))
    | Some a =>
        (* the deferred function runs when [next] returns and when it panics *)
        let '(w', r) := next ctx (set_active a w) in
        (set_active (skipActive_exit name (active w')) w', r)
    end.

(** What [%v] prints for the recovered value. *)
Definition panic_text (p : panic_value) : string :=
  match p with
  | NilFuncCall => "runtime error: invalid memory address or nil pointer dereference"
  | PanicError e => Error e
  | PanicValue v => v
  end.

(** [WithRecover]: a panic below becomes an error value,
    [fmt.Errorf("panic: %v: %s", rec, stack)].  [runtime_Stack] is the
    trace that [runtime.Stack] writes for the recovering goroutine; it
    belongs to the Go run time and is a parameter.  The format has no
    [%w]: the error wraps nothing. *)
Definition WithRecover (runtime_Stack : panic_value -> World -> string) : MiddlewareFunc :=
  fun next ctx w =>
    match next ctx w with
    | (w', Panicked p) =>
        (w', Returned (Some (Opaque ("panic: " +:+ panic_text p +:+ ": "
                                     +:+ runtime_Stack p w'))))
    | (w', Returned e) => (w', Returned e)
    end.

(** [WithDevel] *)
Definition WithDevel (isDevel : bool) : MiddlewareFunc :=
  fun h ctx w => h (NewIsDevelContext ctx isDevel) w.


(** A job that records that it ran and returns [res]. *)
Definition job_body (res : outcome) : Func :=
  fun ctx w => (emit (EvJob (NameFromContext ctx)) w, res).

(** ** The manager *)

Record jobState : Type := mkJobState {
  state : cronState;
  err : option error;
  updatedAt : Time;
  duration : Duration
}.

(** The closure [cronFnCtx] that [Run] builds for the job at [idx].  It
    captures [idx], the manager (by pointer: the manager is passed when
    the closure is called) and the copy [j := cm.jobs[idx]], of which
    it reads [j.fn], [j.name] and [j.isMaintenance]. *)
Record closure : Type := mkClosure {
  cl_idx : nat;
  cl_name : string;
  cl_isMaintenance : bool;
  cl_fn : Func
}.

Record job : Type := mkJob {
  id : Z;                       (* cron.EntryID *)
  name : string;
  schedule : Schedule;
  isMaintenance : bool;
  fn : Func;
  cronFn : option closure;      (* nil until updateID stores it *)
  last : jobState
}.

(** Modelled from the spec: the external scheduler (robfig/cron), which
    is not part of the sources.  The contract is
    [register(cronExpr, callable) -> (entryID, error)],
    [entries() -> list of {entryID, previousFireTime, nextFireTime}],
    [start()], [validate(cronExpr) -> error].  Identifiers are issued
    from a counter that is incremented before each issue, so the first
    one is 1. *)
Record Entry : Type := mkEntry {
  ID : Z;
  Prev : Time;
  Next : Time;
  entry_spec : string;
  entry_job : closure
}.

Record Cron : Type := mkCron {
  entries : list Entry;
  nextID : Z;
  running : bool
}.

Definition cron_New : Cron :=
  {| entries := []; nextID := 0; running := false |}.

Definition cron_Start (c : Cron) : Cron :=
  {| entries := entries c; nextID := nextID c; running := true |}.

Record Manager : Type := mkManager {
  cron : Cron;
  middleware : list MiddlewareFunc;
  jobs : list job
}.

Definition NewManager : Manager :=
  {| cron := cron_New; middleware := []; jobs := [] |}.

Definition set_cron (c : Cron) (cm : Manager) : Manager :=
  {| cron := c; middleware := middleware cm; jobs := jobs cm |}.

Definition set_jobs (js : list job) (cm : Manager) : Manager :=
  {| cron := cron cm; middleware := middleware cm; jobs := js |}.

(** [newJob] *)
Definition newJob (name : string) (schedule : Schedule) (fn : Func)
    (isMaintenance : bool) : job :=
  {| id := 0;
     name := name;
     schedule := schedule;
     isMaintenance := isMaintenance;
     fn := fn;
     cronFn := None;
     last := {| state := stateIdle; err := None; updatedAt := 0; duration := 0 |} |}.

(** [AddFunc], [AddMaintenanceFunc], [Use] *)
Definition AddFunc (name : string) (schedule : Schedule) (fn : Func)
    (cm : Manager) : Manager :=
  set_jobs (jobs cm ++ [newJob name schedule fn false]) cm.

Definition AddMaintenanceFunc (name : string) (schedule : Schedule) (fn : Func)
    (cm : Manager) : Manager :=
  set_jobs (jobs cm ++ [newJob name schedule fn true]) cm.

Definition Use (m : list MiddlewareFunc) (cm : Manager) : Manager :=
  {| cron := cron cm; middleware := middleware cm ++ m; jobs := jobs cm |}.

(** [updateState].  The clock is read twice: [tSince] is the reading
    inside [time.Since], [tNow] the reading of [time.Now()].  Every
    call site passes an index taken from [range cm.jobs]; outside the
    slice Go panics and the model leaves the manager alone. *)
Definition updateState_last (l : jobState) (st : cronState) (e : option error)
    (tSince tNow : Time) : jobState :=
  (* set dur when state changed from running to idle. *)
  let dur :=
    if cronState_eqb (state l) stateRunning && cronState_eqb st stateIdle
    then time_Since tSince (updatedAt l)
    else duration l in
  (* check for Skipped Err *)
  if errors_Is e ErrSkipped
  then {| state := stateSkipped; err := None; updatedAt := tNow; duration := dur |}
  else {| state := st; err := e; updatedAt := tNow; duration := dur |}.

Definition set_last (l : jobState) (j : job) : job :=
  {| id := id j; name := name j; schedule := schedule j;
     isMaintenance := isMaintenance j; fn := fn j; cronFn := cronFn j;
     last := l |}.

Definition updateState (idx : nat) (st : cronState) (e : option error)
    (tSince tNow : Time) (cm : Manager) : Manager :=
  match jobs cm !! idx with
  | Some j =>
      set_jobs (<[idx := set_last (updateState_last (last j) st e tSince tNow) j]> (jobs cm)) cm
  | None => cm
  end.

(** [updateID] *)
Definition set_id_cronFn (i : Z) (funcJob : closure) (j : job) : job :=
  {| id := i; name := name j; schedule := schedule j;
     isMaintenance := isMaintenance j; fn := fn j; cronFn := Some funcJob;
     last := last j |}.

Definition updateID (idx : nat) (i : Z) (funcJob : closure) (cm : Manager) : Manager :=
  match jobs cm !! idx with
  | Some j => set_jobs (<[idx := set_id_cronFn i funcJob j]> (jobs cm)) cm
  | None => cm
  end.

(** What [cronFnCtx] captures at iteration [idx] of [Run], where
    [j := cm.jobs[idx]]. *)
Definition closure_of (idx : nat) (j : job) : closure :=
  {| cl_idx := idx; cl_name := name j;
     cl_isMaintenance := isMaintenance j; cl_fn := fn j |}.

(** The loop of lines 144-147:
    [f := j.fn; for i := len(cm.middleware) - 1; i >= 0; i-- { f = cm.middleware[i](f) }].
    [wrap_from mw n f] runs the iterations [i = n-1, ..., 0]. *)
Fixpoint wrap_from (mw : list MiddlewareFunc) (n : nat) (f : Func) : Func :=
  match n with
  | O => f
  | S i =>
      match mw !! i with
      | Some m => wrap_from mw i (m f)
      | None => wrap_from mw i f
      end
  end.

Definition wrap (mw : list MiddlewareFunc) (f : Func) : Func :=
  wrap_from mw (length mw) f.

(** The body of [cronFnCtx] (lines 142-159), called on the manager it
    captured.  A panic of the chain leaves through the closure: the
    second [updateState] is not reached. *)
Definition cronFnCtx (c : closure) (cm : Manager) (ctx : Context) (w : World)
    : Manager * World * outcome :=
  let f := wrap (middleware cm) (cl_fn c) in
  let ctx := NewNameContext ctx (cl_name c) in
  let ctx := NewMaintenanceContext ctx (cl_isMaintenance c) in
  let cm1 := updateState (cl_idx c) stateRunning None (clock w) (clock w) cm in
  match f ctx w with
  | (w', Returned e) =>
      (updateState (cl_idx c) stateIdle e (clock w') (clock w') cm1, w', Returned e)
  | (w', Panicked p) => (cm1, w', Panicked p)
  end.

(** [ManualRun]: the first job whose name [strings.EqualFold] matches
    with [id].  Calling a nil [cronFn] is a run-time panic. *)
Definition ManualRun (EqualFold : string -> string -> bool)
    (cm : Manager) (ctx : Context) (id : string) (w : World)
    : Manager * World * outcome :=
  match List.find (fun j => EqualFold (name j) id) (jobs cm) with
  | Some j =>
      match cronFn j with
      | Some c => cronFnCtx c cm ctx w
      | None => (cm, w, Panicked NilFuncCall)
      end
  | None => (cm, w, Returned (Some (Sentinel ErrNotFound)))
  end.

(** ** Validation and activation

    [cron.ParseStandard] belongs to the external scheduler; the manager
    only asks whether a specification parses.  [None] is a successful
    parse, [Some e] the parser's error.  [cron.New()] installs the same
    standard parser in the scheduler, so [AddFunc] consults it too.
    [ToLower] is [strings.ToLower]. *)

Section Activation.

Variable ParseStandard : string -> option error.
Variable ToLower : string -> string.

(** The loop of [validateJobs]; [names] is the map of lowered names
    seen so far. *)
Fixpoint validateJobs_loop (names : gset string) (js : list job)
    : string * option error :=
  match js with
  | [] => ("", None)
  | job :: rest =>
      (* check for duplicates *)
      let n := ToLower (name job) in
      if decide (n ∈ names) then (name job, Some (Sentinel ErrDuplicate))
      else
        let names := {[n]} ∪ names in
        (* parse schedule *)
        if IsActive (schedule job) then
          match ParseStandard (schedule job) with
          | Some e => (name job, Some e)
          | None => validateJobs_loop names rest
          end
        else validateJobs_loop names rest
  end.

Definition validateJobs (cm : Manager) : string * option error :=
  validateJobs_loop ∅ (jobs cm).

(** Modelled from the spec: [register(cronExpr, callable)] of the
    external scheduler, which is absent from the sources.  It parses,
    and on success issues the next identifier and appends the entry. *)
Definition cron_AddFunc (spec : string) (cmd : closure) (c : Cron)
    : Cron * Z * option error :=
  match ParseStandard spec with
  | Some e => (c, 0, Some e)
  | None =>
      let i := nextID c + 1 in
      ({| entries := entries c ++
                     [{| ID := i; Prev := 0; Next := 0; entry_spec := spec; entry_job := cmd |}];
          nextID := i;
          running := running c |}, i, None)
  end.

(** One iteration of the registration loop of [Run] (lines 138-175).
    [now] is the clock reading of the [updateState] of a disabled job.
    The right summand is the early [return fmt.Errorf("add cron=...")]. *)
Definition Run_iter (now : Time) (cm : Manager) (idx : nat) : Manager + Manager * error :=
  match jobs cm !! idx with
  | None => inl cm
  | Some j =>
      (* create main job function *)
      let cronFnCtx := closure_of idx j in
      (* check for disabled schedule. save cronFn to job for manual run *)
      if negb (IsActive (schedule j)) then
        let cm := updateID idx (Z.of_nat idx * -1) cronFnCtx cm in (* set fake id *)
        inl (updateState idx stateDisabled None now now cm)
      else
        (* register main functions in cron library *)
        match cron_AddFunc (schedule j) cronFnCtx (cron cm) with
        | (c, _, Some e) =>
            inr (set_cron c cm,
                 Wrapped ("add cron=" +:+ name j +:+ " failed: " +:+ Error e) e)
        | (c, i, None) =>
            (* set ID *)
            inl (updateID idx i cronFnCtx (set_cron c cm))
        end
  end.

(** [for idx := range cm.jobs]; [now idx] is the clock reading of
    iteration [idx]. *)
Fixpoint Run_loop (now : nat -> Time) (cm : Manager) (idxs : list nat)
    : Manager + Manager * error :=
  match idxs with
  | [] => inl cm
  | idx :: rest =>
      match Run_iter (now idx) cm idx with
      | inl cm' => Run_loop now cm' rest
      | inr failure => inr failure
      end
  end.

(** [Run].  The guard of line 133 tests the returned name, not the
    returned error. *)
Definition Run (now : nat -> Time) (cm : Manager) : Manager * option error :=
  let '(nm, e) := validateJobs cm in
  if negb (String.eqb nm "") then
    (cm, Some (match e with
               | Some e => Errorf_w_colon e nm
               | None => Opaque ("%!w(<nil>): " +:+ nm)
               end))
  else
    match Run_loop now cm (seq 0 (length (jobs cm))) with
    | inr (cm', e) => (cm', Some e)
    | inl cm' =>
        (* run main cron process in its own go routine *)
        (set_cron (cron_Start (cron cm')) cm', None)
    end.

End Activation.

(** ** Snapshots ([state.go]) *)

Record State_rec : Type := mkState {
  st_ID : Z;
  st_Name : string;
  st_Schedule : string;
  st_IsMaintenance : bool;
  st_LastState : string;
  st_LastErr : option error;
  st_LastDuration : Duration;
  st_LastUpdatedAt : Time;
  st_LastRun : Time;
  st_NextRun : Time
}.

(** [entryIndex]: the loop of lines 136-139 of [state.go] *)
Definition entryIndex (es : list Entry) : gmap Z Entry :=
  foldl (fun m e => <[ID e := e]> m) ∅ es.

Definition State_of_job (index : gmap Z Entry) (job : job) : State_rec :=
  let run :=
    match index !! id job with
    | Some e => (Prev e, Next e)
    | None => (0, 0)
    end in
  {| st_ID := id job;
     st_Name := name job;
     st_Schedule := schedule job;
     st_IsMaintenance := isMaintenance job;
     st_LastState := cronState_string (state (last job));
     st_LastErr := err (last job);
     st_LastDuration := duration (last job);
     st_LastUpdatedAt := updatedAt (last job);
     st_LastRun := fst run;
     st_NextRun := snd run |}.

Definition State (cm : Manager) : list State_rec :=
  State_of_job (entryIndex (entries (cron cm))) <$> jobs cm.

(** ** Concurrent invocations under [WithSkipActive]

    The scheduler fires every due job on its own goroutine and
    [ManualRun] may be called from any other.  Each goroutine runs the
    closure [cronFnCtx]; with the chain [[WithSkipActive]] that is five
    atomic sections: the two calls of [updateState] (under [muState]),
    the two critical sections of the guard (under [mu]), and the job
    function between them.  A run of the system is an interleaving of
    these sections.  The name the guard reads with [NameFromContext] is
    the one the closure has put in the context, [cl_name]. *)

Module Guard.

Inductive pc : Type :=
  | AtRunning                   (* before cm.updateState(idx, stateRunning, nil) *)
  | AtGuard                     (* before the test-and-insert of WithSkipActive *)
  | InJob                       (* inside next(ctx): the job function executes *)
  | AtRelease (r : outcome)     (* the job function is over, the deferred delete is due *)
  | AtIdle (e : option error)   (* before cm.updateState(idx, stateIdle, err) *)
  | Finished (r : outcome).

Record thread : Type := mkThread {
  th_closure : closure;
  th_pc : pc
}.

Record System : Type := mkSystem {
  sys_cm : Manager;
  sys_world : World;
  sys_threads : list thread
}.

Inductive action : Type :=
  | Invoke (c : closure)              (* the scheduler or ManualRun calls the closure *)
  | Advance (tid : nat) (r : outcome) (* goroutine [tid] runs its next section;
                                         [r] is what the job function yields *)
  | Tick (d : Z).                     (* time passes *)

Definition set_pc (p : pc) (t : thread) : thread :=
  {| th_closure := th_closure t; th_pc := p |}.

Definition set_clock (t : Time) (w : World) : World :=
  {| active := active w; clock := t; trace := trace w |}.

(** One section of goroutine [t]: the new manager, world and program
    point, or [None] when the goroutine has returned. *)
Definition advance (t : thread) (r : outcome) (cm : Manager) (w : World)
    : option (Manager * World * pc) :=
  let c := th_closure t in
  match th_pc t with
  | AtRunning =>
      Some (updateState (cl_idx c) stateRunning None (clock w) (clock w) cm, w, AtGuard)
  | AtGuard =>
      match skipActive_enter (cl_name c) (active w) with
      | None => Some (cm, w, AtIdle (Some (Sentinel ErrSkipped)))
      | Some a => Some (cm, emit (EvJob (cl_name c)) (set_active a w), InJob)
      end
  | InJob => Some (cm, w, AtRelease r)
  | AtRelease r' =>
      let w' := set_active (skipActive_exit (cl_name c) (active w)) w in
      match r' with
      | Returned e => Some (cm, w', AtIdle e)
      | Panicked p => Some (cm, w', Finished (Panicked p))
      end
  | AtIdle e =>
      Some (updateState (cl_idx c) stateIdle e (clock w) (clock w) cm, w, Finished (Returned e))
  | Finished _ => None
  end.

Definition step (a : action) (s : System) : option System :=
  match a with
  | Invoke c =>
      Some {| sys_cm := sys_cm s; sys_world := sys_world s;
              sys_threads := sys_threads s ++ [{| th_closure := c; th_pc := AtRunning |}] |}
  | Tick d =>
      if (0 <=? d)%Z
      then Some {| sys_cm := sys_cm s;
                   sys_world := set_clock (clock (sys_world s) + d) (sys_world s);
                   sys_threads := sys_threads s |}
      else None
  | Advance tid r =>
      match sys_threads s !! tid with
      | None => None
      | Some t =>
          match advance t r (sys_cm s) (sys_world s) with
          | None => None
          | Some (cm, w, p) =>
              Some {| sys_cm := cm; sys_world := w;
                      sys_threads := <[tid := set_pc p t]> (sys_threads s) |}
          end
      end
  end.

Fixpoint run (acts : list action) (s : System) : option System :=
  match acts with
  | [] => Some s
  | a :: rest =>
      match step a s with
      | Some s' => run rest s'
      | None => None
      end
  end.

(** The system right after activation: no goroutine, nothing active. *)
Definition start (cm : Manager) (t0 : Time) : System :=
  {| sys_cm := cm;
     sys_world := {| active := ∅; clock := t0; trace := [] |};
     sys_threads := [] |}.

Definition pc_of (s : System) (tid : nat) : option pc :=
  th_pc <$> sys_threads s !! tid.

Definition phase_of (s : System) (idx : nat) : option cronState :=
  (fun j => state (last j)) <$> jobs (sys_cm s) !! idx.

Definition record_of (s : System) (idx : nat) : option jobState :=
  last <$> jobs (sys_cm s) !! idx.

(** A goroutine holds its name from the insert to the deferred delete. *)
Definition holding (t : thread) : bool :=
  match th_pc t with
  | InJob | AtRelease _ => true
  | _ => false
  end.

(** What the guard maintains: a held name is in the active set, and no
    two goroutines hold the same name. *)
Definition exclusive (s : System) : Prop :=
  (forall tid t,
      sys_threads s !! tid = Some t -> holding t = true ->
      cl_name (th_closure t) ∈ active (sys_world s))
  /\ (forall tid1 tid2 t1 t2,
        sys_threads s !! tid1 = Some t1 -> sys_threads s !! tid2 = Some t2 ->
        holding t1 = true -> holding t2 = true ->
        cl_name (th_closure t1) = cl_name (th_closure t2) ->
        tid1 = tid2).

End Guard.

(** ** Concurrent invocations under [WithMaintenance]

    The closure of [WithMaintenance] owns one [sync.RWMutex].  A
    goroutine takes it exclusively ([Lock]) when its context carries
    the maintenance flag and shared ([RLock]) otherwise, runs [next],
    and releases it.  The release is not deferred: when [next] panics
    the goroutine unwinds with the lock still held.

    [Lock] and [RLock] are partial: [None] is a goroutine that has to
    wait.  They are the conditions without which the call cannot
    return: [Lock] needs the lock free, [RLock] needs no writer
    holding it.  In Go a writer that waits in [Lock] also holds back
    the readers and writers that arrive after it.  The model leaves
    that order out, so it has every interleaving of the program and
    more: what holds in every reachable state of the model holds of
    the program, and a goroutine that cannot move in the model cannot
    move in the program.  That a goroutine can enter is stated only of
    states in which the order plays no part: of an ordinary job when
    no maintenance goroutine waits at the gate, of a maintenance job
    when no other goroutine does.  The flag read with
    [MaintenanceFromContext] is the one the closure has put in the
    context, [cl_isMaintenance]. *)

Module Gate.

Record RWMutex : Type := mkRWMutex {
  readerCount : nat;
  writer : bool
}.

(** [Lock] returns only when no reader and no writer holds the lock. *)
Definition Lock (m : RWMutex) : option RWMutex :=
  if Nat.eqb (readerCount m) 0 && negb (writer m)
  then Some {| readerCount := readerCount m; writer := true |}
  else None.

Definition Unlock (m : RWMutex) : RWMutex :=
  {| readerCount := readerCount m; writer := false |}.

(** [RLock] returns only when no writer holds the lock.  (In Go it
    also waits behind a writer that waits in [Lock]: the order that
    the model leaves out.) *)
Definition RLock (m : RWMutex) : option RWMutex :=
  if writer m then None
  else Some {| readerCount := S (readerCount m); writer := writer m |}.

Definition RUnlock (m : RWMutex) : RWMutex :=
  {| readerCount := Nat.pred (readerCount m); writer := writer m |}.

Inductive pc : Type :=
  | AtLock                      (* before mutex.Lock() / mutex.RLock() *)
  | InJob                       (* inside next(ctx): the job function executes *)
  | AtUnlock (e : option error) (* next returned, before mutex.Unlock() / mutex.RUnlock() *)
  | Finished (r : outcome).

Record thread : Type := mkThread {
  th_closure : closure;
  th_pc : pc
}.

Record System : Type := mkSystem {
  sys_mutex : RWMutex;
  sys_threads : list thread
}.

Inductive action : Type :=
  | Invoke (c : closure)
  | Advance (tid : nat) (r : outcome).

Definition set_pc (p : pc) (t : thread) : thread :=
  {| th_closure := th_closure t; th_pc := p |}.

(** One section of goroutine [t]; [None] when it waits for the lock or
    has returned. *)
Definition advance (t : thread) (r : outcome) (m : RWMutex) : option (RWMutex * pc) :=
  let isMaintenance := cl_isMaintenance (th_closure t) in
  match th_pc t with
  | AtLock =>
      match (if isMaintenance then Lock m else RLock m) with
      | Some m' => Some (m', InJob)
      | None => None
      end
  | InJob =>
      match r with
      | Returned e => Some (m, AtUnlock e)
      | Panicked p => Some (m, Finished (Panicked p))
      end
  | AtUnlock e =>
      Some (if isMaintenance then Unlock m else RUnlock m, Finished (Returned e))
  | Finished _ => None
  end.

Definition step (a : action) (s : System) : option System :=
  match a with
  | Invoke c =>
      Some {| sys_mutex := sys_mutex s;
              sys_threads := sys_threads s ++ [{| th_closure := c; th_pc := AtLock |}] |}
  | Advance tid r =>
      match sys_threads s !! tid with
      | None => None
      | Some t =>
          match advance t r (sys_mutex s) with
          | None => None
          | Some (m, p) =>
              Some {| sys_mutex := m;
                      sys_threads := <[tid := set_pc p t]> (sys_threads s) |}
          end
      end
  end.

Fixpoint run (acts : list action) (s : System) : option System :=
  match acts with
  | [] => Some s
  | a :: rest =>
      match step a s with
      | Some s' => run rest s'
      | None => None
      end
  end.

Definition start : System :=
  {| sys_mutex := {| readerCount := 0; writer := false |}; sys_threads := [] |}.

(** Goroutine [tid] is executing the job function of a job with
    maintenance flag [m]. *)
Definition in_job (s : System) (tid : nat) (m : bool) : Prop :=
  exists t, sys_threads s !! tid = Some t
            /\ th_pc t = InJob /\ cl_isMaintenance (th_closure t) = m.

(** The goroutines that hold the lock: between the acquire and the
    release, and for ever after a panic of the job function. *)
Definition holds (t : thread) : bool :=
  match th_pc t with
  | AtLock => false
  | InJob => true
  | AtUnlock _ => true
  | Finished (Panicked _) => true
  | Finished (Returned _) => false
  end.

Definition weight (m : bool) (t : thread) : nat :=
  if holds t && Bool.eqb (cl_isMaintenance (th_closure t)) m then 1 else 0.

Fixpoint holders (m : bool) (ts : list thread) : nat :=
  match ts with
  | [] => 0
  | t :: rest => weight m t + holders m rest
  end.

Definition consistent (s : System) : Prop :=
  readerCount (sys_mutex s) = holders false (sys_threads s)
  /\ holders true (sys_threads s) = (if writer (sys_mutex s) then 1 else 0)%nat
  /\ (writer (sys_mutex s) = true -> readerCount (sys_mutex s) = 0%nat).

End Gate.

(** ** Observing middleware

    [WithLogger], [WithSLog], [WithSentry] and [WithMetrics] report to
    collaborators that are not part of the sources: a printf function,
    a [Logger], the Sentry hub, the Prometheus vectors.  Each
    collaborator is a parameter: what a call of it does to the world. *)

(** An argument of a printf call. *)
Inductive log_arg : Type :=
  | LStr (s : string)
  | LDur (d : Duration)
  | LBool (b : bool).

(** [LogPrintf]: [func(format string, v ...interface{})], nil or not. *)
Definition LogPrintf : Type := option (string -> list log_arg -> World -> World).

Definition logger_format : string :=
  "cron job %s job=%s duration=%v err=%q manager=%s maintenance=%v".

(** [WithLogger].  The line is printed after [next] returns; nothing
    is deferred, so a panic of [next] passes through.  Calling a nil
    [pf] is a run-time panic. *)
Definition WithLogger (pf : LogPrintf) (managerName : string) : MiddlewareFunc :=
  fun next ctx w =>
    let start := clock w in
    match next ctx w with
    | (w', Panicked p) => (w', Panicked p)
    | (w', Returned err) =>
        (* set error msg for %q *)
        let '(errMsg, st) :=
          if errors_Is err ErrSkipped then ("", "skipped")
          else match err with
               | Some e => (Error e, "finished")
               | None => ("", "finished")
               end in
        match pf with
        | None => (w', Panicked NilFuncCall)
        | Some printf =>
            (printf logger_format
                    [LStr st; LStr (NameFromContext ctx);
                     LDur (time_Since (clock w') start); LStr errMsg;
                     LStr managerName; LBool (MaintenanceFromContext ctx)] w',
             Returned err)
        end
    end.

(** An argument of a structured log call. *)
Inductive slog_arg : Type :=
  | SStr (s : string)
  | SDur (d : Duration)
  | SErr (e : error).

(** The interface [Logger]. *)
Record Logger : Type := mkLogger {
  lg_Print : string -> list (string * slog_arg) -> World -> World;
  lg_Error : string -> list (string * slog_arg) -> World -> World
}.

(** [WithSLog] *)
Definition WithSLog (lg : Logger) : MiddlewareFunc :=
  fun next ctx w =>
    let start := clock w in
    match next ctx w with
    | (w', Panicked p) => (w', Panicked p)
    | (w', Returned err) =>
        let d := time_Since (clock w') start in
        let name := NameFromContext ctx in
        let w'' :=
          if errors_Is err ErrSkipped then
            lg_Print lg "cron job skipped" [("job", SStr name); ("duration", SDur d)] w'
          else match err with
               | Some e =>
                   lg_Error lg "cron job failed"
                            [("job", SStr name); ("duration", SDur d); ("err", SErr e)] w'
               | None =>
                   lg_Print lg "cron job finished"
                            [("job", SStr name); ("duration", SDur d)] w'
               end in
        (w'', Returned err)
    end.

(** The type switch in the deferred function of [WithSentry]
    (lines 155-160): [case error: err = e] keeps a recovered error as
    it is (a run-time error is an error, and matches no sentinel),
    [default: err = fmt.Errorf("%v", e)] makes one of any other
    value. *)
Definition recovered_error (p : panic_value) : error :=
  match p with
  | NilFuncCall => Opaque (panic_text NilFuncCall)
  | PanicError e => e
  | PanicValue v => Opaque v
  end.

(** [WithSentry].  [capture] is [CaptureException] on the cloned hub,
    tagged with the job name.  The deferred function runs on return
    and on panic and sets the named result. *)
Definition WithSentry (capture : string -> error -> World -> World) : MiddlewareFunc :=
  fun next ctx w =>
    let '(w', r) := next ctx w in
    let err :=
      match r with
      | Panicked p => Some (recovered_error p)
      | Returned e => e
      end in
    match err with
    | Some e => (capture (NameFromContext ctx) e w', Returned (Some e))
    | None => (w', Returned None)
    end.

(** The three vectors of [WithMetrics], by what a call does: the
    gauge [statActive] (labels app, cron), the counter [statEvaluated]
    and the summary [statDurations] (labels app, cron, state). *)
Record Metrics : Type := mkMetrics {
  statActive_Inc : string -> string -> World -> World;
  statActive_Dec : string -> string -> World -> World;
  statEvaluated_Inc : string -> string -> string -> World -> World;
  statDurations_Observe : string -> string -> string -> Duration -> World -> World
}.

(** [WithMetrics] *)
Definition WithMetrics (m : Metrics) (app : string) : MiddlewareFunc :=
  fun next ctx w =>
    let name := NameFromContext ctx in
    let start := clock w in
    match next ctx (statActive_Inc m app name w) with
    | (w', Panicked p) => (w', Panicked p)
    | (w', Returned err) =>
        let st := match err with Some _ => "error" | None => "ok" end in
        let w1 := statActive_Dec m app name w' in
        let w2 := statEvaluated_Inc m app name st w1 in
        (statDurations_Observe m app name st (time_Since (clock w2) start) w2,
         Returned err)
    end.

(** ** Contexts as chains of values

    [context.WithValue] puts one key and one value in front of its
    parent and [Value] returns the value of the nearest equal key.
    The keys of the package are the three constants of type
    [contextKey] and, for [ContextValue[K, T]], the empty struct [K{}]:
    a key of another type never equals them.  A value is read through
    a type assertion and the zero value is the answer when it fails. *)

Module Ctx.

Inductive key : Type :=
  | contextKey (s : string)     (* contextKey("name"), ... *)
  | structKey (K : string).     (* K{} for the type named K *)

Inductive value : Type :=
  | VString (s : string)
  | VBool (b : bool)
  | VInt (n : Z).

Definition key_eqb (a b : key) : bool :=
  match a, b with
  | contextKey s, contextKey t => String.eqb s t
  | structKey s, structKey t => String.eqb s t
  | _, _ => false
  end.

Definition context : Type := list (key * value).

Definition Background : context := [].

Definition WithValue (ctx : context) (k : key) (v : value) : context :=
  (k, v) :: ctx.

Fixpoint Value (ctx : context) (k : key) : option value :=
  match ctx with
  | [] => None
  | (k', v) :: parent => if key_eqb k' k then Some v else Value parent k
  end.

Definition maintenanceKey : key := contextKey "maintenance".
Definition nameKey : key := contextKey "name".
Definition isDevelCtx : key := contextKey "isDevelKey".

Definition NewMaintenanceContext (ctx : context) (isMaintenance : bool) : context :=
  WithValue ctx maintenanceKey (VBool isMaintenance).

Definition MaintenanceFromContext (ctx : context) : bool :=
  match Value ctx maintenanceKey with
  | Some (VBool r) => r
  | _ => false
  end.

Definition NewNameContext (ctx : context) (name : string) : context :=
  WithValue ctx nameKey (VString name).

Definition NameFromContext (ctx : context) : string :=
  match Value ctx nameKey with
  | Some (VString v) => v
  | _ => ""
  end.

Definition NewIsDevelContext (ctx : context) (isDevel : bool) : context :=
  WithValue ctx isDevelCtx (VBool isDevel).

Definition IsDevelFromContext (ctx : context) : bool :=
  match Value ctx isDevelCtx with
  | Some (VBool isDevel) => isDevel
  | _ => false
  end.

(** [ContextValue[K, T]]: the type [T] is given by how it is injected
    in the values, how the assertion [.(T)] reads it back, and its
    zero value. *)
Record ContextValue (T : Type) : Type := mkContextValue {
  cv_key : string;
  cv_box : T -> value;
  cv_assert : value -> option T;
  cv_zero : T
}.

Arguments cv_key {T} _.
Arguments cv_box {T} _ _.
Arguments cv_assert {T} _ _.
Arguments cv_zero {T} _.

Definition cv_WithValue {T : Type} (p : ContextValue T) (ctx : context) (v : T) : context :=
  WithValue ctx (structKey (cv_key p)) (cv_box p v).

Definition cv_FromContext {T : Type} (p : ContextValue T) (ctx : context) : T :=
  match Value ctx (structKey (cv_key p)) with
  | Some v =>
      match cv_assert p v with
      | Some t => t
      | None => cv_zero p
      end
  | None => cv_zero p
  end.

(** [NewContextValue[K, string]()], [NewContextValue[K, int]()],
    [NewContextValue[K, bool]()]. *)
Definition stringValue (K : string) : ContextValue string :=
  {| cv_key := K; cv_box := VString;
     cv_assert := fun v => match v with VString s => Some s | _ => None end;
     cv_zero := "" |}.

Definition intValue (K : string) : ContextValue Z :=
  {| cv_key := K; cv_box := VInt;
     cv_assert := fun v => match v with VInt n => Some n | _ => None end;
     cv_zero := 0 |}.

Definition boolValue (K : string) : ContextValue bool :=
  {| cv_key := K; cv_box := VBool;
     cv_assert := fun v => match v with VBool b => Some b | _ => None end;
     cv_zero := false |}.

(** A [ContextValue] whose assertion reads back what it boxes. *)
Definition faithful {T : Type} (p : ContextValue T) : Prop :=
  forall t, cv_assert p (cv_box p t) = Some t.

End Ctx.

(** The annotations of a chain, as the record [Context] holds them. *)
Definition annotations (ctx : Ctx.context) : Context :=
  {| ctx_name :=
       match Ctx.Value ctx Ctx.nameKey with
       | Some (Ctx.VString v) => Some v
       | _ => None
       end;
     ctx_maintenance :=
       match Ctx.Value ctx Ctx.maintenanceKey with
       | Some (Ctx.VBool r) => Some r
       | _ => None
       end;
     ctx_isDevel :=
       match Ctx.Value ctx Ctx.isDevelCtx with
       | Some (Ctx.VBool b) => Some b
       | _ => None
       end |}.

(** ** Concrete managers

    The managers of [cron_test.go] and [examples/main.go], used to run
    the definitions above on explicit inputs. *)

(** [newCronFunc] of the tests: it prints and returns nil. *)
Definition newCronFunc (msg : string) : Func :=
  fun ctx w => (emit (EvJob msg) w, Returned None).

(** A parser to run the examples with: the first check of the standard
    grammar, which wants exactly five blank-separated fields. *)
Fixpoint count_fields (inField : bool) (s : string) : nat :=
  match s with
  | EmptyString => 0
  | String c rest =>
      if Ascii.eqb c " "%char then count_fields false rest
      else if inField then count_fields true rest
      else S (count_fields true rest)
  end.

Definition five_fields (spec : string) : option error :=
  if Nat.eqb (count_fields false spec) 5 then None
  else Some (Opaque "expected exactly 5 fields").

(** [TestManager_Validate]: two jobs, then a third with a taken name. *)
Definition manager_f1_f2 : Manager :=
  AddFunc "f2" "0 0 * * *" (newCronFunc "f2")
    (AddFunc "f1" "0 0 * * *" (newCronFunc "f1") NewManager).

(** A manager whose first job is manual-only. *)
Definition manager_f5 : Manager :=
  AddFunc "f1" "* * * * *" (newCronFunc "f1")
    (AddFunc "f5" "" (newCronFunc "f5") NewManager).

(** Two jobs registered under the empty name. *)
Definition manager_unnamed : Manager :=
  AddFunc "" "" (newCronFunc "second")
    (AddFunc "" "" (newCronFunc "first") NewManager).

(** A good job followed by a job with the empty name and a schedule
    that does not parse. *)
Definition manager_unnamed_bad : Manager :=
  AddFunc "" "invalid" (newCronFunc "bad")
    (AddFunc "f1" "0 0 * * *" (newCronFunc "f1") NewManager).

(** A job with a bad schedule registered before two jobs whose names
    differ in case only. *)
Definition manager_bad_then_dup : Manager :=
  AddFunc "F1" "0 0 * * *" (newCronFunc "F1")
    (AddFunc "f1" "0 0 * * *" (newCronFunc "f1")
       (AddFunc "f3" "invalid" (newCronFunc "f3") NewManager)).

Definition manager_f1_F1 : Manager :=
  AddFunc "F1" "0 0 * * *" (newCronFunc "F1")
    (AddFunc "f1" "0 0 * * *" (newCronFunc "f1") NewManager).

(** One job behind the duplicate-run guard, activated. *)
Definition manager_guarded : Manager :=
  fst (Run five_fields ToLower_ascii (fun _ => 5)
         (Use [WithSkipActive]
            (AddFunc "a" "* * * * *" (newCronFunc "a") NewManager))).

Definition closure_a : closure :=
  {| cl_idx := 0; cl_name := "a"; cl_isMaintenance := false;
     cl_fn := newCronFunc "a" |}.

(** A job record in the middle of a run that started at time 10, with
    the duration 99 of an earlier run. *)
Definition running_since_10 : jobState :=
  {| state := stateRunning; err := None; updatedAt := 10; duration := 99 |}.

Definition manager_running : Manager :=
  set_jobs [set_last running_since_10 (newJob "a" "* * * * *" (newCronFunc "a") false)]
           NewManager.

(** Two invocations of job [a]: the first enters the job function, the
    second starts and finishes while the first is still inside. *)
Definition overlap : list Guard.action :=
  [ Guard.Invoke closure_a; Guard.Tick 10;
    Guard.Advance 0 (Returned None); Guard.Advance 0 (Returned None);
    Guard.Invoke closure_a; Guard.Tick 10;
    Guard.Advance 1 (Returned None); Guard.Advance 1 (Returned None);
    Guard.Tick 5; Guard.Advance 1 (Returned None) ].

(** The same, stopped when the second invocation reaches the guard. *)
Definition overlap_at_guard : list Guard.action :=
  [ Guard.Invoke closure_a; Guard.Tick 10;
    Guard.Advance 0 (Returned None); Guard.Advance 0 (Returned None);
    Guard.Invoke closure_a; Guard.Tick 10;
    Guard.Advance 1 (Returned None) ].

Definition overlap_state : Guard.System :=
  default (Guard.start manager_guarded 0)
          (Guard.run overlap_at_guard (Guard.start manager_guarded 0)).

Definition closure_m : closure :=
  {| cl_idx := 1; cl_name := "m"; cl_isMaintenance := true;
     cl_fn := newCronFunc "m" |}.

Definition closure_b : closure :=
  {| cl_idx := 2; cl_name := "b"; cl_isMaintenance := false;
     cl_fn := newCronFunc "b" |}.

(** Two ordinary jobs enter the gate one after the other. *)
Definition two_readers : list Gate.action :=
  [ Gate.Invoke closure_a; Gate.Invoke closure_b;
    Gate.Advance 0 (Returned None); Gate.Advance 1 (Returned None) ].

(** A maintenance job enters the gate; an ordinary job is invoked. *)
Definition writer_then_reader : list Gate.action :=
  [ Gate.Invoke closure_m; Gate.Invoke closure_a;
    Gate.Advance 0 (Returned None) ].

Definition writer_inside : Gate.System :=
  default Gate.start (Gate.run writer_then_reader Gate.start).

(** A stack trace to run [WithRecover] with. *)
Definition goroutine_stack : panic_value -> World -> string :=
  fun _ _ => "goroutine 1 [running]:".

(** The panicking branch of [newTask] in [examples/main.go]. *)
Definition newPanicFunc (msg : string) : Func :=
  fun ctx w => (emit (EvJob msg) w, Panicked (PanicValue "job test panic")).

Definition world_7 : World := {| active := ∅; clock := 7; trace := [] |}.

(** A job that panics, behind the guard only, and behind
    [WithRecover] and the guard. *)
Definition manager_panicky : Manager :=
  fst (Run five_fields ToLower_ascii (fun _ => 5)
         (Use [WithSkipActive]
            (AddFunc "p" "* * * * *" (newPanicFunc "p") NewManager))).

Definition manager_recovering : Manager :=
  fst (Run five_fields ToLower_ascii (fun _ => 5)
         (Use [WithRecover goroutine_stack; WithSkipActive]
            (AddFunc "p" "* * * * *" (newPanicFunc "p") NewManager))).

Definition closure_p : closure :=
  {| cl_idx := 0; cl_name := "p"; cl_isMaintenance := false;
     cl_fn := newPanicFunc "p" |}.

(** A maintenance job enters the gate and its job function panics; an
    ordinary job has been invoked. *)
Definition writer_panics : list Gate.action :=
  [ Gate.Invoke closure_m; Gate.Invoke closure_a;
    Gate.Advance 0 (Returned None);
    Gate.Advance 0 (Panicked (PanicValue "job test panic")) ].

Definition writer_panicked : Gate.System :=
  default Gate.start (Gate.run writer_panics Gate.start).

(** An ordinary job goes through the gate and returns; a maintenance
    job is invoked. *)
Definition reader_returns : list Gate.action :=
  [ Gate.Invoke closure_a; Gate.Advance 0 (Returned None);
    Gate.Advance 0 (Returned None); Gate.Advance 0 (Returned None);
    Gate.Invoke closure_m ].

Definition reader_returned : Gate.System :=
  default Gate.start (Gate.run reader_returns Gate.start).

(** Both invocations of [overlap] and the first one to its end. *)
Definition overlap_to_end : list Guard.action :=
  overlap ++ [ Guard.Advance 0 (Returned None); Guard.Advance 0 (Returned None);
               Guard.Tick 3; Guard.Advance 0 (Returned None) ].

Definition overlap_ended : Guard.System :=
  default (Guard.start manager_guarded 0)
          (Guard.run overlap_to_end (Guard.start manager_guarded 0)).

(** ** Vocabulary of the statements *)

(** The names of a job list after [strings.ToLower], in order. *)
Definition lowered (ToLower : string -> string) (js : list job) : list string :=
  (fun j => ToLower (name j)) <$> js.

(** The schedule of [j] is inactive or it parses. *)
Definition parses (ParseStandard : string -> option error) (j : job) : Prop :=
  IsActive (schedule j) = true -> ParseStandard (schedule j) = None.

(** A manager as the registration calls build it, before [Run]. *)
Inductive registered : Manager -> Prop :=
  | registered_New : registered NewManager
  | registered_AddFunc nm sched f cm :
      registered cm -> registered (AddFunc nm sched f cm)
  | registered_AddMaintenanceFunc nm sched f cm :
      registered cm -> registered (AddMaintenanceFunc nm sched f cm)
  | registered_Use ms cm :
      registered cm -> registered (Use ms cm).

(** What the registration loop of [Run] leaves in [cm.jobs[idx]], where
    [j] is the job before the loop. *)
Definition activated (idx : nat) (j j' : job) : Prop :=
  name j' = name j
  /\ schedule j' = schedule j
  /\ isMaintenance j' = isMaintenance j
  /\ fn j' = fn j
  /\ cronFn j' = Some (closure_of idx j)
  /\ (if IsActive (schedule j)
      then 1 <= id j' /\ last j' = last j
      else id j' = - Z.of_nat idx
           /\ state (last j') = stateDisabled /\ err (last j') = None).

(** The identifiers the scheduler has issued: 1 up to its counter. *)
Definition issued (c : Cron) : Prop :=
  0 <= nextID c /\ Forall (fun e => 1 <= ID e <= nextID c) (entries c).

(** The state of the registration loop before iteration [k], started
    on the manager [cm0]. *)
Definition Run_inv (cm0 : Manager) (k : nat) (cm : Manager) : Prop :=
  middleware cm = middleware cm0
  /\ name <$> jobs cm = name <$> jobs cm0
  /\ (forall i j, (k <= i)%nat -> jobs cm0 !! i = Some j -> jobs cm !! i = Some j)
  /\ (forall i j, (i < k)%nat -> jobs cm0 !! i = Some j ->
                  exists j', jobs cm !! i = Some j' /\ activated i j j')
  /\ issued (cron cm)
  /\ Forall (fun e => exists j, jobs cm0 !! cl_idx (entry_job e) = Some j
                                /\ IsActive (schedule j) = true)
            (entries (cron cm))
  /\ running (cron cm) = running (cron cm0).

(** The registration loop of [Run], job by job: what it stores in the
    job at position [idx] when the scheduler has issued [issuedSoFar]
    identifiers, and the entries it adds to the scheduler. *)
Definition activate_job (now : nat -> Time) (idx : nat) (issuedSoFar : Z) (j : job) : job :=
  if IsActive (schedule j)
  then set_id_cronFn (issuedSoFar + 1) (closure_of idx j) j
  else set_last (updateState_last (last j) stateDisabled None (now idx) (now idx))
                (set_id_cronFn (Z.of_nat idx * -1) (closure_of idx j) j).

Fixpoint activate_jobs (now : nat -> Time) (idx : nat) (issuedSoFar : Z) (js : list job)
    : list job :=
  match js with
  | [] => []
  | j :: rest =>
      activate_job now idx issuedSoFar j
        :: activate_jobs now (S idx)
             (if IsActive (schedule j) then issuedSoFar + 1 else issuedSoFar) rest
  end.

Fixpoint activate_entries (idx : nat) (issuedSoFar : Z) (js : list job) : list Entry :=
  match js with
  | [] => []
  | j :: rest =>
      if IsActive (schedule j)
      then {| ID := issuedSoFar + 1; Prev := 0; Next := 0;
              entry_spec := schedule j; entry_job := closure_of idx j |}
             :: activate_entries (S idx) (issuedSoFar + 1) rest
      else activate_entries (S idx) issuedSoFar rest
  end.

Fixpoint count_active (js : list job) : Z :=
  match js with
  | [] => 0
  | j :: rest => (if IsActive (schedule j) then 1 else 0) + count_active rest
  end.

(** Two jobs that differ at most in identifier, closure and state
    record: what [Run] and [updateState] may change. *)
Definition same_registration (j j' : job) : Prop :=
  name j' = name j /\ schedule j' = schedule j
  /\ isMaintenance j' = isMaintenance j /\ fn j' = fn j.

(** A middleware unit that contains panics: whatever it wraps, it
    returns. *)
Definition contains_panics (m : MiddlewareFunc) : Prop :=
  forall next ctx w, exists w' e, m next ctx w = (w', Returned e).

(** The context that [cronFnCtx] hands to the chain. *)
Definition closure_context (c : closure) (ctx : Context) : Context :=
  NewMaintenanceContext (NewNameContext ctx (cl_name c)) (cl_isMaintenance c).

(** Every name in the active set of the guard is held by a goroutine. *)
Definition tracked (s : Guard.System) : Prop :=
  forall n, n ∈ active (Guard.sys_world s) ->
    exists tid t, Guard.sys_threads s !! tid = Some t
                  /\ Guard.holding t = true
                  /\ cl_name (Guard.th_closure t) = n.

(** No maintenance goroutine other than [tid] is at the gate, waiting
    for the lock.  In such a state a call of [RLock] by [tid] has no
    waiting writer to queue behind. *)
Definition no_writer_waiting (s : Gate.System) (tid : nat) : Prop :=
  forall tid' t',
    tid' <> tid ->
    Gate.sys_threads s !! tid' = Some t' ->
    cl_isMaintenance (Gate.th_closure t') = true ->
    Gate.th_pc t' <> Gate.AtLock.

(** No goroutine other than [tid] is at the gate.  In such a state a
    call of [Lock] by [tid] has no writer to queue behind and no
    reader, let through by the release of an earlier writer, to wait
    for. *)
Definition alone_at_gate (s : Gate.System) (tid : nat) : Prop :=
  forall tid' t',
    tid' <> tid ->
    Gate.sys_threads s !! tid' = Some t' ->
    Gate.th_pc t' <> Gate.AtLock.

(** * Properties *)

(** A decidable proposition about closed terms, settled by evaluation. *)
Ltac by_evaluation := apply (bool_decide_unpack _); vm_compute; exact I.

(** ** Basic facts *)

Lemma cronState_eqb_eq (a b : cronState) : cronState_eqb a b = true <-> a = b.
Proof. destruct a, b; vm_compute; split; congruence. Qed.

Lemma errors_Is_sentinel : errors_Is (Some (Sentinel ErrSkipped)) ErrSkipped = true.
Proof. reflexivity. Qed.

Lemma errors_Is_wrapped (t : string) (e : error) (target : sentinel) :
  errors_Is (Some (Wrapped t e)) target = errors_Is (Some e) target.
Proof. reflexivity. Qed.

Lemma errors_Is_joined (e : error) (es : list error) (target : sentinel) :
  errors_Is (Some (Joined (e :: es))) target
  = errors_Is (Some e) target || errors_Is (Some (Joined es)) target.
Proof. reflexivity. Qed.

(** What the middleware reads from the context that [cronFnCtx] built. *)
Lemma context_annotations (ctx : Context) (c : closure) :
  let ctx' := NewMaintenanceContext (NewNameContext ctx (cl_name c)) (cl_isMaintenance c) in
  NameFromContext ctx' = cl_name c
  /\ MaintenanceFromContext ctx' = cl_isMaintenance c.
Proof. by split. Qed.

Lemma updateState_lookup (cm : Manager) (idx : nat) (j : job) (st : cronState)
    (e : option error) (tSince tNow : Time) :
  jobs cm !! idx = Some j ->
  jobs (updateState idx st e tSince tNow cm) !! idx
  = Some (set_last (updateState_last (last j) st e tSince tNow) j).
Proof.
  intros Hj. unfold updateState. rewrite Hj. simpl.
  apply list_lookup_insert_eq. eapply lookup_lt_Some; eauto.
Qed.

Lemma updateState_lookup_ne (cm : Manager) (idx k : nat) (st : cronState)
    (e : option error) (tSince tNow : Time) :
  idx <> k ->
  jobs (updateState idx st e tSince tNow cm) !! k = jobs cm !! k.
Proof.
  intros Hne. unfold updateState. destruct (jobs cm !! idx); [|done].
  simpl. by apply list_lookup_insert_ne.
Qed.

Lemma updateState_length (cm : Manager) (idx : nat) (st : cronState)
    (e : option error) (tSince tNow : Time) :
  length (jobs (updateState idx st e tSince tNow cm)) = length (jobs cm).
Proof.
  unfold updateState. destruct (jobs cm !! idx); [|done].
  simpl. apply length_insert.
Qed.

Lemma updateState_middleware (cm : Manager) (idx : nat) (st : cronState)
    (e : option error) (tSince tNow : Time) :
  middleware (updateState idx st e tSince tNow cm) = middleware cm.
Proof. unfold updateState. by destruct (jobs cm !! idx). Qed.

Lemma updateState_cron (cm : Manager) (idx : nat) (st : cronState)
    (e : option error) (tSince tNow : Time) :
  cron (updateState idx st e tSince tNow cm) = cron cm.
Proof. unfold updateState. by destruct (jobs cm !! idx). Qed.

Lemma updateState_last_skipped (l : jobState) (st : cronState) (e : option error)
    (tSince tNow : Time) :
  errors_Is e ErrSkipped = true ->
  state (updateState_last l st e tSince tNow) = stateSkipped
  /\ err (updateState_last l st e tSince tNow) = None.
Proof. intros He. unfold updateState_last. by rewrite He. Qed.

Lemma updateState_last_duration (l : jobState) (st : cronState) (e : option error)
    (tSince tNow : Time) :
  duration (updateState_last l st e tSince tNow)
  = if cronState_eqb (state l) stateRunning && cronState_eqb st stateIdle
    then tSince - updatedAt l else duration l.
Proof. unfold updateState_last, time_Since. by destruct (errors_Is e ErrSkipped). Qed.

Lemma updateState_last_updatedAt (l : jobState) (st : cronState) (e : option error)
    (tSince tNow : Time) :
  updatedAt (updateState_last l st e tSince tNow) = tNow.
Proof. unfold updateState_last. by destruct (errors_Is e ErrSkipped). Qed.

Lemma updateState_last_state (l : jobState) (st : cronState) (e : option error)
    (tSince tNow : Time) :
  state (updateState_last l st e tSince tNow)
  = if errors_Is e ErrSkipped then stateSkipped else st.
Proof. unfold updateState_last. by destruct (errors_Is e ErrSkipped). Qed.

(** ** The state tracker *)

(** C4. Whenever the error passed to [updateState] matches [ErrSkipped]
    along the error chain, the stored phase is [skipped] and the
    stored error is nil, whatever phase was requested. *)
Theorem updateState_skip_sentinel (cm : Manager) (idx : nat) (j : job)
    (st : cronState) (e : option error) (tSince tNow : Time) :
  jobs cm !! idx = Some j ->
  errors_Is e ErrSkipped = true ->
  exists j',
    jobs (updateState idx st e tSince tNow cm) !! idx = Some j'
    /\ state (last j') = stateSkipped
    /\ err (last j') = None
    /\ ~ (state (last j') = stateIdle /\ err (last j') = e).
Proof.
  intros Hj He. eexists. split; [by apply updateState_lookup|].
  destruct (updateState_last_skipped (last j) st e tSince tNow He) as [Hs Hn].
  simpl. rewrite Hs, Hn. split; [done|]. split; [done|].
  intros [Hidle _]. discriminate.
Qed.

(** C5, as amended. [updateState] changes the stored duration exactly
    when the previous phase is [running] and the requested phase is
    [idle]; the new duration is then the clock reading minus the time
    of the last update, which is not negative on a monotonic clock and
    is the time since [running] was recorded.  The phase stored by
    that call is [idle], or [skipped] when the error matches the skip
    sentinel. *)
Theorem updateState_records_duration (cm : Manager) (idx : nat) (j : job)
    (st : cronState) (e : option error) (tSince tNow : Time) :
  jobs cm !! idx = Some j ->
  exists j',
    jobs (updateState idx st e tSince tNow cm) !! idx = Some j'
    /\ (state (last j) = stateRunning -> st = stateIdle ->
        duration (last j') = tSince - updatedAt (last j)
        /\ (updatedAt (last j) <= tSince -> 0 <= duration (last j'))
        /\ state (last j') = (if errors_Is e ErrSkipped then stateSkipped else stateIdle))
    /\ (~ (state (last j) = stateRunning /\ st = stateIdle) ->
        duration (last j') = duration (last j))
    /\ (forall t0s t0 : Time,
          exists j2,
            jobs (updateState idx stateIdle e tSince tNow
                    (updateState idx stateRunning None t0s t0 cm)) !! idx = Some j2
            /\ duration (last j2) = tSince - t0).
Proof.
  intros Hj. eexists. split; [by apply updateState_lookup|].
  simpl. rewrite updateState_last_duration, updateState_last_state.
  split; [|split].
  - intros Hrun Hidle. rewrite Hrun, Hidle. simpl.
    split; [done|]. split; [lia|done].
  - intros Hnot.
    destruct (cronState_eqb (state (last j)) stateRunning) eqn:E1; [|done].
    destruct (cronState_eqb st stateIdle) eqn:E2; [|done].
    exfalso. apply Hnot. split; by apply cronState_eqb_eq.
  - intros t0s t0. eexists. split.
    + apply updateState_lookup. by apply updateState_lookup.
    + simpl. rewrite updateState_last_duration, updateState_last_state,
        updateState_last_updatedAt. done.
Qed.

Lemma updateState_skip_sentinel_wrapped :
  exists j',
    jobs (updateState 0 stateIdle
            (Some (Wrapped "job a: skipped" (Sentinel ErrSkipped))) 25 26
            manager_running) !! 0%nat = Some j'
    /\ state (last j') = stateSkipped
    /\ err (last j') = None
    /\ ~ (state (last j') = stateIdle
          /\ err (last j') = Some (Wrapped "job a: skipped" (Sentinel ErrSkipped))).
Proof.
  apply (updateState_skip_sentinel manager_running 0
           (set_last running_since_10 (newJob "a" "* * * * *" (newCronFunc "a") false))
           stateIdle (Some (Wrapped "job a: skipped" (Sentinel ErrSkipped))) 25 26).
  - reflexivity.
  - reflexivity.
Defined.

(** The duration changes on a transition from [running] to [skipped]:
    the job record was [running] since time 10 with duration 99, the
    run ends at time 25 with the skip sentinel, and the record reads
    [skipped] with duration 15. *)
Lemma duration_recorded_on_skip :
  let l' := updateState_last running_since_10 stateIdle
              (Some (Sentinel ErrSkipped)) 25 26 in
  state running_since_10 = stateRunning
  /\ state l' = stateSkipped
  /\ state l' <> stateIdle
  /\ duration running_since_10 = 99
  /\ duration l' = 15
  /\ jobs (updateState 0 stateIdle (Some (Sentinel ErrSkipped)) 25 26 manager_running)
     = [set_last l' (newJob "a" "* * * * *" (newCronFunc "a") false)].
Proof. vm_compute. repeat split; congruence. Qed.

Lemma updateState_records_duration_at_25 :
  exists j',
    jobs (updateState 0 stateIdle None 25 26 manager_running) !! 0%nat = Some j'
    /\ (state running_since_10 = stateRunning -> stateIdle = stateIdle ->
        duration (last j') = 25 - 10
        /\ (10 <= 25 -> 0 <= duration (last j'))
        /\ state (last j') = stateIdle)
    /\ (~ (state running_since_10 = stateRunning /\ stateIdle = stateIdle) ->
        duration (last j') = 99)
    /\ (forall t0s t0 : Time,
          exists j2,
            jobs (updateState 0 stateIdle None 25 26
                    (updateState 0 stateRunning None t0s t0 manager_running)) !! 0%nat
            = Some j2
            /\ duration (last j2) = 25 - t0).
Proof.
  apply (updateState_records_duration manager_running 0
           (set_last running_since_10 (newJob "a" "* * * * *" (newCronFunc "a") false))
           stateIdle None 25 26).
  reflexivity.
Defined.

(** ** The middleware chain *)

Lemma wrap_from_take (mw : list MiddlewareFunc) (n : nat) (f : Func) :
  (n <= length mw)%nat ->
  wrap_from mw n f = foldr (fun m g => m g) f (take n mw).
Proof.
  revert f. induction n as [|n IH]; intros f Hn; [done|].
  cbn [wrap_from]. destruct (mw !! n) as [m|] eqn:Hm.
  - rewrite IH by lia.
    rewrite (take_S_r (A:=MiddlewareFunc) mw n m Hm), foldr_app. done.
  - apply (lookup_ge_None (A:=MiddlewareFunc)) in Hm. lia.
Qed.

Lemma wrap_foldr (mw : list MiddlewareFunc) (f : Func) :
  wrap mw f = foldr (fun m g => m g) f mw.
Proof.
  unfold wrap. rewrite wrap_from_take by done. by rewrite firstn_all.
Qed.

Lemma wrap_cons (m : MiddlewareFunc) (mw : list MiddlewareFunc) (f : Func) :
  wrap (m :: mw) f = m (wrap mw f).
Proof. by rewrite !wrap_foldr. Qed.

Lemma wrap_app (mw1 mw2 : list MiddlewareFunc) (f : Func) :
  wrap (mw1 ++ mw2) f = wrap mw1 (wrap mw2 f).
Proof. by rewrite !wrap_foldr, foldr_app. Qed.





(** ** The duplicate-run guard *)

(** C2. If the name is in the active set at entry the guard returns
    the skip sentinel and the wrapped function is not called (the
    result is the same for every wrapped function and the world is
    untouched).  Otherwise the name is inserted, the wrapped function
    is called, and the name is removed whatever the call yields
    (a nil error, an error, a panic): it is not in the active set at
    exit.  Other names are not touched, and the guard section of a
    goroutine is always enabled: a name that is not active enters the
    job function whatever other names are active. *)
Theorem WithSkipActive_guard (next : Func) (ctx : Context) (w : World) :
  let name := NameFromContext ctx in
  (name ∈ active w ->
     forall other : Func,
       WithSkipActive other ctx w = (w, Returned (Some (Sentinel ErrSkipped))))
  /\ (name ∉ active w ->
      forall (w' : World) (r : outcome),
        next ctx (set_active ({[name]} ∪ active w) w) = (w', r) ->
        WithSkipActive next ctx w = (set_active (active w' ∖ {[name]}) w', r)
        /\ (name ∉ active (fst (WithSkipActive next ctx w)))
        /\ (forall other : string,
              other <> name ->
              (other ∈ active (fst (WithSkipActive next ctx w)) <-> other ∈ active w')))
  /\ (forall (t : Guard.thread) (r : outcome) (cm : Manager),
        Guard.th_pc t = Guard.AtGuard ->
        cl_name (Guard.th_closure t) = name ->
        exists w1 p,
          Guard.advance t r cm w = Some (cm, w1, p)
          /\ (name ∉ active w -> p = Guard.InJob /\ name ∈ active w1)
          /\ (name ∈ active w ->
              p = Guard.AtIdle (Some (Sentinel ErrSkipped)) /\ w1 = w)).
Proof.
  intros name. split; [|split].
  - intros Hin other. unfold WithSkipActive, skipActive_enter. fold name.
    by rewrite decide_True.
  - intros Hnot w' r Hnext.
    assert (Hrun : WithSkipActive next ctx w = (set_active (active w' ∖ {[name]}) w', r)).
    { unfold WithSkipActive, skipActive_enter, skipActive_exit. fold name.
      rewrite decide_False by done. by rewrite Hnext. }
    rewrite Hrun. simpl. split; [done|]. split.
    + rewrite elem_of_difference, elem_of_singleton. tauto.
    + intros other Hne. rewrite elem_of_difference, elem_of_singleton. tauto.
  - intros t r cm Hpc Hname. unfold Guard.advance. rewrite Hpc, Hname.
    unfold skipActive_enter. destruct (decide (name ∈ active w)) as [Hin|Hnot].
    + do 2 eexists. split; [done|]. split; [done|]. done.
    + do 2 eexists. split; [done|]. split; [|done].
      intros _. split; [done|]. simpl.
      apply elem_of_union_l. by apply elem_of_singleton.
Qed.

Lemma WithSkipActive_guard_on_a :
  let ctx := NewNameContext Background "a" in
  let busy := {| active := {["a"]}; clock := 7; trace := [] |} in
  let free := {| active := {["b"]}; clock := 7; trace := [] |} in
  let panics : Func := fun _ w => (w, Panicked (PanicValue "job test panic")) in
  WithSkipActive (newCronFunc "a") ctx busy
  = (busy, Returned (Some (Sentinel ErrSkipped)))
  /\ ("a" ∉ active (fst (WithSkipActive panics ctx free)))
  /\ ("b" ∈ active (fst (WithSkipActive panics ctx free))).
Proof.
  intros ctx busy free panics. split; [|split].
  - apply (WithSkipActive_guard (newCronFunc "a") ctx busy). by_evaluation.
  - eapply (WithSkipActive_guard panics ctx free).
    + by_evaluation.
    + reflexivity.
  - eapply (WithSkipActive_guard panics ctx free).
    + by_evaluation.
    + reflexivity.
    + discriminate.
    + by_evaluation.
Defined.

(** ** Interleaved invocations behind the guard *)

Section GuardRuns.

Import Guard.

Lemma start_exclusive (cm : Manager) (t0 : Time) : exclusive (start cm t0).
Proof.
  split.
  - intros tid t Ht. simpl in Ht. by rewrite lookup_nil in Ht.
  - intros tid1 tid2 t1 t2 Ht. simpl in Ht. by rewrite lookup_nil in Ht.
Qed.

Lemma lookup_spawned (ts : list thread) (t : thread) (tid : nat) (t' : thread) :
  (ts ++ [t]) !! tid = Some t' ->
  ts !! tid = Some t' \/ t' = t.
Proof.
  intros H. apply lookup_app_Some in H as [H|[_ H]]; [by left|].
  right. apply list_lookup_singleton_Some in H as [_ H]. done.
Qed.

Lemma lookup_advanced (ts : list thread) (tid k : nat) (t new t' : thread) :
  ts !! tid = Some t ->
  <[tid := new]> ts !! k = Some t' ->
  (k = tid /\ t' = new) \/ (k <> tid /\ ts !! k = Some t').
Proof.
  intros Ht H. destruct (decide (k = tid)) as [->|Hne].
  - left. split; [done|].
    rewrite list_lookup_insert_eq in H by (eapply lookup_lt_Some; eauto).
    congruence.
  - right. split; [done|]. by rewrite list_lookup_insert_ne in H.
Qed.

Lemma exclusive_quiet (s : System) (tid : nat) (t : thread) (p : pc)
    (cm : Manager) (w : World) :
  exclusive s ->
  sys_threads s !! tid = Some t ->
  active w = active (sys_world s) ->
  (holding (set_pc p t) = true -> holding t = true) ->
  exclusive {| sys_cm := cm; sys_world := w;
               sys_threads := <[tid := set_pc p t]> (sys_threads s) |}.
Proof.
  intros [Hin Hone] Ht Hact Hhold. split; simpl.
  - intros k t' Hk Hh. rewrite Hact.
    destruct (lookup_advanced _ _ _ _ _ _ Ht Hk) as [[-> ->]|[Hne Hk']].
    + apply (Hin tid t Ht). by apply Hhold.
    + by apply (Hin k t').
  - intros k1 k2 t1 t2 H1 H2 Hh1 Hh2 Hn.
    destruct (lookup_advanced _ _ _ _ _ _ Ht H1) as [[-> ->]|[Hne1 H1']];
      destruct (lookup_advanced _ _ _ _ _ _ Ht H2) as [[-> ->]|[Hne2 H2']].
    + done.
    + apply (Hone tid k2 t t2); auto.
    + apply (Hone k1 tid t1 t); auto.
    + by apply (Hone k1 k2 t1 t2).
Qed.

Lemma exclusive_enter (s : System) (tid : nat) (t : thread) (p : pc)
    (cm : Manager) (w : World) :
  exclusive s ->
  sys_threads s !! tid = Some t ->
  cl_name (th_closure t) ∉ active (sys_world s) ->
  active w = {[cl_name (th_closure t)]} ∪ active (sys_world s) ->
  exclusive {| sys_cm := cm; sys_world := w;
               sys_threads := <[tid := set_pc p t]> (sys_threads s) |}.
Proof.
  intros [Hin Hone] Ht Hfree Hact. split; simpl.
  - intros k t' Hk Hh. rewrite Hact.
    destruct (lookup_advanced _ _ _ _ _ _ Ht Hk) as [[-> ->]|[Hne Hk']].
    + apply elem_of_union_l. by apply elem_of_singleton.
    + apply elem_of_union_r. by apply (Hin k t').
  - intros k1 k2 t1 t2 H1 H2 Hh1 Hh2 Hn.
    destruct (lookup_advanced _ _ _ _ _ _ Ht H1) as [[-> ->]|[Hne1 H1']];
      destruct (lookup_advanced _ _ _ _ _ _ Ht H2) as [[-> ->]|[Hne2 H2']].
    + done.
    + exfalso. apply Hfree. simpl in Hn. rewrite Hn. by apply (Hin k2 t2).
    + exfalso. apply Hfree. simpl in Hn. rewrite <- Hn. by apply (Hin k1 t1).
    + by apply (Hone k1 k2 t1 t2).
Qed.

Lemma exclusive_release (s : System) (tid : nat) (t : thread) (p : pc)
    (cm : Manager) (w : World) :
  exclusive s ->
  sys_threads s !! tid = Some t ->
  holding t = true ->
  holding (set_pc p t) = false ->
  active w = active (sys_world s) ∖ {[cl_name (th_closure t)]} ->
  exclusive {| sys_cm := cm; sys_world := w;
               sys_threads := <[tid := set_pc p t]> (sys_threads s) |}.
Proof.
  intros [Hin Hone] Ht Hheld Hnew Hact. split; simpl.
  - intros k t' Hk Hh. rewrite Hact.
    destruct (lookup_advanced _ _ _ _ _ _ Ht Hk) as [[-> ->]|[Hne Hk']].
    + congruence.
    + apply elem_of_difference. split; [by apply (Hin k t')|].
      rewrite elem_of_singleton. intros Hn. apply Hne.
      by apply (Hone k tid t' t).
  - intros k1 k2 t1 t2 H1 H2 Hh1 Hh2 Hn.
    destruct (lookup_advanced _ _ _ _ _ _ Ht H1) as [[-> ->]|[Hne1 H1']];
      [congruence|].
    destruct (lookup_advanced _ _ _ _ _ _ Ht H2) as [[-> ->]|[Hne2 H2']];
      [congruence|].
    by apply (Hone k1 k2 t1 t2).
Qed.

Ltac rewrite_pc :=
  match goal with H : th_pc _ = _ |- _ => rewrite H end.

Ltac held := unfold holding; simpl; intros; try discriminate; try rewrite_pc; done.

Lemma step_exclusive (a : action) (s s' : System) :
  exclusive s -> step a s = Some s' -> exclusive s'.
Proof.
  intros Hex Hstep. destruct a as [c|tid r|d]; simpl in Hstep.
  - injection Hstep as <-. destruct Hex as [Hin Hone]. split; simpl.
    + intros k t Hk Hh. apply lookup_spawned in Hk as [Hk| ->]; [eauto|discriminate].
    + intros k1 k2 t1 t2 H1 H2 Hh1 Hh2 Hn.
      apply lookup_spawned in H1 as [H1| ->]; [|discriminate].
      apply lookup_spawned in H2 as [H2| ->]; [|discriminate].
      eauto.
  - destruct (sys_threads s !! tid) as [t|] eqn:Ht; [|discriminate].
    destruct (advance t r (sys_cm s) (sys_world s)) as [[[cm w] p]|] eqn:Hadv;
      [|discriminate].
    injection Hstep as <-. unfold advance in Hadv.
    destruct (th_pc t) as [| | |r'|e|r'] eqn:Hpc.
    + injection Hadv as <- <- <-. apply exclusive_quiet; auto; held.
    + unfold skipActive_enter in Hadv.
      destruct (decide (cl_name (th_closure t) ∈ active (sys_world s))) as [Hbusy|Hfree].
      * injection Hadv as <- <- <-. apply exclusive_quiet; auto; held.
      * injection Hadv as <- <- <-. apply exclusive_enter; auto.
    + injection Hadv as <- <- <-. apply exclusive_quiet; auto; held.
    + assert (Hheld : holding t = true) by (unfold holding; by rewrite Hpc).
      destruct r' as [e|pv]; injection Hadv as <- <- <-;
        apply exclusive_release; auto.
    + injection Hadv as <- <- <-. apply exclusive_quiet; auto; held.
    + discriminate.
  - destruct (0 <=? d)%Z; [|discriminate]. injection Hstep as <-.
    destruct Hex as [Hin Hone]. split; simpl; eauto.
Qed.

Lemma run_exclusive (acts : list action) (s s' : System) :
  exclusive s -> run acts s = Some s' -> exclusive s'.
Proof.
  revert s. induction acts as [|a acts IH]; intros s Hex Hrun; simpl in Hrun.
  - by injection Hrun as <-.
  - destruct (step a s) as [s1|] eqn:Hstep; [|discriminate].
    eapply IH; [|exact Hrun]. by eapply step_exclusive.
Qed.

(** The sections of the machine are the closure cut at its mutexes:
    a goroutine that runs alone computes [cronFnCtx] under the chain
    [[WithSkipActive]]. *)
Lemma goroutine_alone (c : closure) (cm : Manager) (w : World) (r : outcome) :
  middleware cm = [WithSkipActive] ->
  cl_fn c = job_body r ->
  let sections :=
    if decide (cl_name c ∈ active w) then 3%nat
    else match r with Returned _ => 5%nat | Panicked _ => 4%nat end in
  run (Invoke c :: replicate sections (Advance 0 r))
      {| sys_cm := cm; sys_world := w; sys_threads := [] |}
  = (let '(cm', w', r') := cronFnCtx c cm Background w in
     Some {| sys_cm := cm'; sys_world := w';
             sys_threads := [{| th_closure := c; th_pc := Finished r' |}] |}).
Proof.
  intros Hmw Hfn. unfold cronFnCtx. rewrite Hmw, Hfn.
  unfold wrap. cbn [length wrap_from lookup list_lookup].
  unfold WithSkipActive, job_body, skipActive_enter.
  cbn [NameFromContext NewMaintenanceContext NewNameContext ctx_name].
  destruct (decide (cl_name c ∈ active w)) as [Hin|Hout]; cbn.
  - unfold skipActive_enter.
    destruct (decide (cl_name c ∈ active w)); [|done]. reflexivity.
  - unfold skipActive_enter.
    destruct r as [e|pv]; cbn; unfold skipActive_enter;
      (destruct (decide (cl_name c ∈ active w)); [done|]); reflexivity.
Qed.

(** C1, as amended. Behind the duplicate-run guard, while one
    invocation of a job is inside its job function, a second
    invocation of the same job that reaches the guard gets the skip
    sentinel and the job function is not called for it.  Its closing
    state update then stores phase [skipped] with a nil error: the
    record of the job no longer reads [running] although the first
    invocation is still inside its job function. *)
Theorem second_invocation_is_skipped (cm : Manager) (t0 : Time)
    (acts : list action) (s : System) (tid1 tid2 : nat) (t1 t2 : thread)
    (r : outcome) :
  run acts (start cm t0) = Some s ->
  sys_threads s !! tid1 = Some t1 ->
  sys_threads s !! tid2 = Some t2 ->
  th_pc t1 = InJob ->
  th_pc t2 = AtGuard ->
  cl_name (th_closure t2) = cl_name (th_closure t1) ->
  is_Some (jobs (sys_cm s) !! cl_idx (th_closure t2)) ->
  exists s1 s2,
    step (Advance tid2 r) s = Some s1
    /\ pc_of s1 tid2 = Some (AtIdle (Some (Sentinel ErrSkipped)))
    /\ trace (sys_world s1) = trace (sys_world s)
    /\ step (Advance tid2 r) s1 = Some s2
    /\ pc_of s2 tid2 = Some (Finished (Returned (Some (Sentinel ErrSkipped))))
    /\ pc_of s2 tid1 = Some InJob
    /\ phase_of s2 (cl_idx (th_closure t2)) = Some stateSkipped
    /\ err <$> record_of s2 (cl_idx (th_closure t2)) = Some None.
Proof.
  intros Hrun H1 H2 Hpc1 Hpc2 Hname [j Hj].
  assert (Hex : exclusive s) by (eapply run_exclusive; [apply start_exclusive|exact Hrun]).
  assert (Hbusy : cl_name (th_closure t2) ∈ active (sys_world s)).
  { rewrite Hname. destruct Hex as [Hin _]. apply (Hin tid1 t1 H1).
    unfold holding. by rewrite Hpc1. }
  assert (Hne : tid2 <> tid1).
  { intros ->. rewrite H1 in H2. injection H2 as ->. congruence. }
  assert (Hlt : (tid2 < length (sys_threads s))%nat) by (eapply lookup_lt_Some; eauto).
  eexists _, _. split.
  { simpl. rewrite H2. unfold advance. rewrite Hpc2. unfold skipActive_enter.
    rewrite decide_True by done. reflexivity. }
  split.
  { unfold pc_of. simpl. by rewrite list_lookup_insert_eq. }
  split; [done|]. split.
  { simpl. rewrite list_lookup_insert_eq by done. unfold advance. simpl. reflexivity. }
  split.
  { unfold pc_of. simpl. rewrite list_lookup_insert_eq; [done|].
    by rewrite length_insert. }
  split.
  { unfold pc_of. simpl. rewrite !list_lookup_insert_ne by done.
    by rewrite H1, <- Hpc1. }
  unfold phase_of, record_of. simpl.
  rewrite (updateState_lookup _ _ _ _ _ _ _ Hj). split; reflexivity.
Qed.

End GuardRuns.

(** The second invocation does overwrite the phase of the run in
    flight.  Job [a] is invoked and enters its job function (the record
    reads [running]); it is invoked again and the second invocation
    finishes; the first is still in its job function and the record
    reads [skipped]. *)
Lemma skipped_invocation_overwrites_running :
  exists s_before s,
    Guard.run (take 4 overlap) (Guard.start manager_guarded 0) = Some s_before
    /\ Guard.pc_of s_before 0 = Some Guard.InJob
    /\ Guard.phase_of s_before 0 = Some stateRunning
    /\ Guard.run overlap (Guard.start manager_guarded 0) = Some s
    /\ Guard.pc_of s 0 = Some Guard.InJob
    /\ Guard.pc_of s 1 = Some (Guard.Finished (Returned (Some (Sentinel ErrSkipped))))
    /\ Guard.phase_of s 0 = Some stateSkipped
    /\ Guard.phase_of s 0 <> Some stateRunning.
Proof.
  eexists _, _. split; [vm_compute; reflexivity|].
  split; [reflexivity|]. split; [reflexivity|].
  split; [vm_compute; reflexivity|].
  split; [reflexivity|]. split; [reflexivity|]. split; [reflexivity|].
  vm_compute. congruence.
Qed.

Lemma second_invocation_is_skipped_overlap :
  exists s1 s2,
    Guard.step (Guard.Advance 1 (Returned None)) overlap_state = Some s1
    /\ Guard.pc_of s1 1 = Some (Guard.AtIdle (Some (Sentinel ErrSkipped)))
    /\ trace (Guard.sys_world s1) = trace (Guard.sys_world overlap_state)
    /\ Guard.step (Guard.Advance 1 (Returned None)) s1 = Some s2
    /\ Guard.pc_of s2 1 = Some (Guard.Finished (Returned (Some (Sentinel ErrSkipped))))
    /\ Guard.pc_of s2 0 = Some Guard.InJob
    /\ Guard.phase_of s2 0 = Some stateSkipped
    /\ err <$> Guard.record_of s2 0 = Some None.
Proof.
  apply (second_invocation_is_skipped manager_guarded 0 overlap_at_guard overlap_state
           0 1 (Guard.mkThread closure_a Guard.InJob) (Guard.mkThread closure_a Guard.AtGuard)
           (Returned None)).
  - vm_compute. reflexivity.
  - reflexivity.
  - reflexivity.
  - reflexivity.
  - reflexivity.
  - reflexivity.
  - vm_compute. eexists. reflexivity.
Defined.

(** ** The maintenance gate *)

Section GateRuns.

Import Gate.

Lemma holders_app (m : bool) (ts1 ts2 : list thread) :
  holders m (ts1 ++ ts2) = (holders m ts1 + holders m ts2)%nat.
Proof. induction ts1 as [|t ts1 IH]; simpl; [done|]. rewrite IH. lia. Qed.

Lemma holders_insert (m : bool) (ts : list thread) (tid : nat) (t new : thread) :
  ts !! tid = Some t ->
  (holders m (<[tid := new]> ts) + weight m t = holders m ts + weight m new)%nat.
Proof.
  revert tid. induction ts as [|x ts IH]; intros tid Ht.
  - by rewrite lookup_nil in Ht.
  - destruct tid as [|tid]; simpl in *.
    + injection Ht as ->. lia.
    + specialize (IH tid Ht). lia.
Qed.

Lemma holders_lookup (m : bool) (ts : list thread) (tid : nat) (t : thread) :
  ts !! tid = Some t -> (weight m t <= holders m ts)%nat.
Proof.
  revert tid. induction ts as [|x ts IH]; intros tid Ht.
  - by rewrite lookup_nil in Ht.
  - destruct tid as [|tid]; simpl in *.
    + injection Ht as ->. lia.
    + specialize (IH tid Ht). lia.
Qed.

Lemma holders_lookup_two (m : bool) (ts : list thread) (tid1 tid2 : nat)
    (t1 t2 : thread) :
  tid1 <> tid2 ->
  ts !! tid1 = Some t1 -> ts !! tid2 = Some t2 ->
  (weight m t1 + weight m t2 <= holders m ts)%nat.
Proof.
  revert tid1 tid2. induction ts as [|x ts IH]; intros tid1 tid2 Hne H1 H2.
  - by rewrite lookup_nil in H1.
  - destruct tid1 as [|tid1], tid2 as [|tid2]; simpl in *.
    + done.
    + injection H1 as ->. pose proof (holders_lookup m ts tid2 t2 H2). lia.
    + injection H2 as ->. pose proof (holders_lookup m ts tid1 t1 H1). lia.
    + assert (tid1 <> tid2) by congruence. specialize (IH tid1 tid2 H H1 H2). lia.
Qed.

Lemma weight_in_job (t : thread) (m : bool) :
  th_pc t = InJob -> cl_isMaintenance (th_closure t) = m -> weight m t = 1%nat.
Proof.
  intros Hpc Hm. unfold weight, holds. rewrite Hpc, Hm. by destruct m.
Qed.

Lemma start_consistent : consistent start.
Proof. by repeat split. Qed.

Lemma step_consistent (a : action) (s s' : System) :
  consistent s -> step a s = Some s' -> consistent s'.
Proof.
  intros (Hr & Hw & Hx) Hstep. destruct a as [c|tid r]; simpl in Hstep.
  - injection Hstep as <-. unfold consistent. simpl.
    rewrite !holders_app. simpl. unfold weight, holds. simpl.
    repeat split; [lia|lia|done].
  - destruct (sys_threads s !! tid) as [t|] eqn:Ht; [|discriminate].
    destruct (advance t r (sys_mutex s)) as [[m p]|] eqn:Hadv; [|discriminate].
    injection Hstep as <-. unfold consistent. simpl.
    pose proof (holders_insert true _ _ _ (set_pc p t) Ht) as Ht1.
    pose proof (holders_insert false _ _ _ (set_pc p t) Ht) as Ht0.
    pose proof (holders_lookup true _ _ _ Ht) as Hl1.
    pose proof (holders_lookup false _ _ _ Ht) as Hl0.
    unfold advance in Hadv. unfold weight, holds in Ht1, Ht0, Hl1, Hl0. simpl in Ht1, Ht0.
    destruct (cl_isMaintenance (th_closure t)) eqn:HisM;
      destruct (th_pc t) as [| |e|r'] eqn:Hpc; simpl in *.
    + unfold Lock in Hadv.
      destruct (Nat.eqb (readerCount (sys_mutex s)) 0) eqn:Hz; [|discriminate].
      destruct (writer (sys_mutex s)) eqn:Hwr; [discriminate|].
      apply Nat.eqb_eq in Hz.
      injection Hadv as <- <-. simpl in *. repeat split; lia.
    + destruct r as [e|pv]; injection Hadv as <- <-; simpl in *;
        repeat split; try lia; done.
    + injection Hadv as <- <-. simpl in *.
      destruct (writer (sys_mutex s)) eqn:Hwr; repeat split; try lia; done.
    + discriminate.
    + unfold RLock in Hadv.
      destruct (writer (sys_mutex s)) eqn:Hwr; [discriminate|].
      injection Hadv as <- <-. simpl in *. rewrite ?Hwr. repeat split; try lia; done.
    + destruct r as [e|pv]; injection Hadv as <- <-; simpl in *;
        repeat split; try lia; done.
    + injection Hadv as <- <-. simpl in *.
      destruct (writer (sys_mutex s)) eqn:Hwr; repeat split; try lia; done.
    + discriminate.
Qed.

Lemma run_consistent (acts : list action) (s s' : System) :
  consistent s -> run acts s = Some s' -> consistent s'.
Proof.
  revert s. induction acts as [|a acts IH]; intros s Hc Hrun; simpl in Hrun.
  - by injection Hrun as <-.
  - destruct (step a s) as [s1|] eqn:Hstep; [|discriminate].
    eapply IH; [|exact Hrun]. by eapply step_consistent.
Qed.

(** C3. In every reachable state of the gate, while a goroutine of a
    maintenance job is inside its job function no other goroutine is
    inside a job function, maintenance or not.  Ordinary jobs do not
    exclude each other: when no maintenance job holds the lock and
    none waits for it, an ordinary job at the gate enters at once,
    next to the jobs already inside; two ordinary jobs are inside
    together in a reachable state. *)
Theorem maintenance_runs_alone (acts : list action) (s : System) :
  run acts start = Some s ->
  (forall (tid1 tid2 : nat) (m : bool),
      tid1 <> tid2 -> in_job s tid1 true -> ~ in_job s tid2 m)
  /\ (forall (tid : nat) (t : thread) (r : outcome),
        sys_threads s !! tid = Some t ->
        th_pc t = AtLock ->
        cl_isMaintenance (th_closure t) = false ->
        holders true (sys_threads s) = 0%nat ->
        no_writer_waiting s tid ->
        exists s',
          step (Advance tid r) s = Some s'
          /\ in_job s' tid false
          /\ (forall (tid' : nat) (m : bool), in_job s tid' m -> in_job s' tid' m))
  /\ (exists acts2 s2,
        run acts2 start = Some s2 /\ in_job s2 0 false /\ in_job s2 1 false).
Proof.
  intros Hrun.
  assert (Hc : consistent s) by (eapply run_consistent; [apply start_consistent|exact Hrun]).
  destruct Hc as (Hr & Hw & Hx). split; [|split].
  - intros tid1 tid2 m Hne (t1 & H1 & Hpc1 & Hm1) (t2 & H2 & Hpc2 & Hm2).
    pose proof (weight_in_job t1 true Hpc1 Hm1) as W1.
    pose proof (weight_in_job t2 m Hpc2 Hm2) as W2.
    pose proof (holders_lookup true _ _ _ H1) as L1.
    destruct (writer (sys_mutex s)) eqn:Hwr; [|lia].
    specialize (Hx eq_refl). destruct m.
    + pose proof (holders_lookup_two true _ _ _ _ _ Hne H1 H2). lia.
    + pose proof (holders_lookup false _ _ _ H2). lia.
  - intros tid t r Ht Hpc HisM Hnone _.
    assert (Hwr : writer (sys_mutex s) = false).
    { destruct (writer (sys_mutex s)); [lia|done]. }
    eexists. split.
    { simpl. rewrite Ht. unfold advance. rewrite Hpc, HisM. unfold RLock.
      rewrite Hwr. reflexivity. }
    assert (Hlt : (tid < length (sys_threads s))%nat) by (eapply lookup_lt_Some; eauto).
    split.
    + exists (set_pc InJob t). simpl. by rewrite list_lookup_insert_eq.
    + intros tid' m (t' & Ht' & Hpc' & Hm'). exists t'. simpl.
      rewrite list_lookup_insert_ne; [done|].
      intros ->. rewrite Ht in Ht'. injection Ht' as ->. congruence.
  - exists two_readers. eexists. split; [vm_compute; reflexivity|].
    split; eexists; (split; [reflexivity|split; reflexivity]).
Qed.

End GateRuns.

Lemma maintenance_runs_alone_writer_inside :
  (forall (tid1 tid2 : nat) (m : bool),
      tid1 <> tid2 -> Gate.in_job writer_inside tid1 true ->
      ~ Gate.in_job writer_inside tid2 m)
  /\ (forall (tid : nat) (t : Gate.thread) (r : outcome),
        Gate.sys_threads writer_inside !! tid = Some t ->
        Gate.th_pc t = Gate.AtLock ->
        cl_isMaintenance (Gate.th_closure t) = false ->
        Gate.holders true (Gate.sys_threads writer_inside) = 0%nat ->
        no_writer_waiting writer_inside tid ->
        exists s',
          Gate.step (Gate.Advance tid r) writer_inside = Some s'
          /\ Gate.in_job s' tid false
          /\ (forall (tid' : nat) (m : bool),
                Gate.in_job writer_inside tid' m -> Gate.in_job s' tid' m))
  /\ (exists acts2 s2,
        Gate.run acts2 Gate.start = Some s2
        /\ Gate.in_job s2 0 false /\ Gate.in_job s2 1 false).
Proof.
  apply (maintenance_runs_alone writer_then_reader writer_inside).
  vm_compute. reflexivity.
Defined.

(** While the maintenance job is inside, the ordinary job waits at the
    gate: its section is not enabled. *)
Lemma reader_waits_for_writer :
  Gate.in_job writer_inside 0 true
  /\ Gate.step (Gate.Advance 1 (Returned None)) writer_inside = None.
Proof.
  split; [|reflexivity].
  eexists. split; [reflexivity|]. split; reflexivity.
Qed.

(** ** Validation *)

Lemma validateJobs_loop_duplicate (ParseStandard : string -> option error)
    (ToLower : string -> string)
    (pre post : list job) (dup : job) (names : gset string) :
  (forall n, n ∈ lowered ToLower pre -> n ∉ names) ->
  NoDup (lowered ToLower pre) ->
  Forall (parses ParseStandard) pre ->
  ToLower (name dup) ∈ names \/ ToLower (name dup) ∈ lowered ToLower pre ->
  validateJobs_loop ParseStandard ToLower names (pre ++ dup :: post)
  = (name dup, Some (Sentinel ErrDuplicate)).
Proof.
  revert names. induction pre as [|j pre IH]; intros names Hfresh Hnd Hok Hdup.
  - simpl. destruct Hdup as [Hdup|Hdup].
    + by rewrite decide_True.
    + by apply elem_of_nil in Hdup.
  - simpl. unfold lowered in *. rewrite fmap_cons in *.
    apply NoDup_cons in Hnd as [Hj Hnd].
    apply Forall_cons in Hok as [Hpj Hok].
    rewrite decide_False by (apply Hfresh; apply list_elem_of_here).
    assert (Hnext : validateJobs_loop ParseStandard ToLower
                      ({[ToLower (name j)]} ∪ names) (pre ++ dup :: post)
                    = (name dup, Some (Sentinel ErrDuplicate))).
    { apply IH; [|done|done|].
      - intros n Hn. rewrite elem_of_union, elem_of_singleton.
        intros [->|Hin]; [done|].
        apply (Hfresh n); [|done]. by apply list_elem_of_further.
      - destruct Hdup as [Hdup|Hdup].
        + left. by apply elem_of_union_r.
        + apply elem_of_cons in Hdup as [->|Hdup]; [|by right].
          left. apply elem_of_union_l. by apply elem_of_singleton. }
    destruct (IsActive (schedule j)) eqn:Hact; [|done].
    by rewrite (Hpj Hact).
Qed.

(** C7, as amended. When a job list holds two names that are equal
    after [strings.ToLower] and no job before the second of them has
    an active schedule that fails to parse, validation fails with the
    duplicate-name error and returns the name, in its own casing, of
    the job processed second in the first such pair.  [ToLower] is
    any function: the statement holds of the one of the Go library,
    with its Unicode lowering. *)
Theorem validateJobs_first_duplicate (ParseStandard : string -> option error)
    (ToLower : string -> string)
    (cm : Manager) (pre post : list job) (dup : job) :
  jobs cm = pre ++ dup :: post ->
  NoDup (lowered ToLower pre) ->
  ToLower (name dup) ∈ lowered ToLower pre ->
  Forall (parses ParseStandard) pre ->
  validateJobs ParseStandard ToLower cm = (name dup, Some (Sentinel ErrDuplicate)).
Proof.
  intros Hjobs Hnd Hdup Hok. unfold validateJobs. rewrite Hjobs.
  apply validateJobs_loop_duplicate; [|done|done|by right].
  intros n _. apply not_elem_of_empty.
Qed.

Lemma validateJobs_first_duplicate_f1_F1 :
  validateJobs five_fields ToLower_ascii manager_f1_F1 = ("F1", Some (Sentinel ErrDuplicate)).
Proof.
  apply (validateJobs_first_duplicate five_fields ToLower_ascii manager_f1_F1
           [newJob "f1" "0 0 * * *" (newCronFunc "f1") false] []
           (newJob "F1" "0 0 * * *" (newCronFunc "F1") false)).
  - reflexivity.
  - by_evaluation.
  - by_evaluation.
  - constructor; [|constructor]. intros _. reflexivity.
Defined.

(** A list with the names [f1] and [F1] for which validation does not
    fail with the duplicate-name error: an earlier job has a schedule
    that does not parse, and that is what validation reports. *)
Lemma bad_schedule_hides_duplicate :
  lowered ToLower_ascii (jobs manager_bad_then_dup) = ["f3"; "f1"; "f1"]
  /\ validateJobs five_fields ToLower_ascii manager_bad_then_dup
     = ("f3", Some (Opaque "expected exactly 5 fields"))
  /\ snd (validateJobs five_fields ToLower_ascii manager_bad_then_dup)
     <> Some (Sentinel ErrDuplicate).
Proof. vm_compute. repeat split; congruence. Qed.

(** ** Activation *)

Lemma Run_rejects (ParseStandard : string -> option error)
    (ToLower : string -> string) (now : nat -> Time)
    (cm : Manager) :
  fst (validateJobs ParseStandard ToLower cm) <> "" ->
  fst (Run ParseStandard ToLower now cm) = cm
  /\ is_Some (snd (Run ParseStandard ToLower now cm)).
Proof.
  intros Hname. unfold Run.
  destruct (validateJobs ParseStandard ToLower cm) as [nm e]. simpl in Hname.
  destruct (String.eqb nm "") eqn:Heq.
  - apply String.eqb_eq in Heq. done.
  - simpl. split; [done|]. by eexists.
Qed.

(** C6. At two jobs with the empty name, and at a job with the empty
    name whose schedule does not parse, validation fails (it returns
    the error and the offending name, which is empty) but [Run] tests
    the name: in the first case it registers, starts the scheduler and
    returns nil; in the second it returns an error after the job
    before has been added to the scheduler. *)
Theorem Run_ignores_failure_on_empty_name :
  let activated := Run five_fields ToLower_ascii (fun _ => 5) manager_unnamed in
  let partial := Run five_fields ToLower_ascii (fun _ => 5) manager_unnamed_bad in
  validateJobs five_fields ToLower_ascii manager_unnamed = ("", Some (Sentinel ErrDuplicate))
  /\ snd activated = None
  /\ running (cron (fst activated)) = true
  /\ id <$> jobs (fst activated) = [0; -1]
  /\ validateJobs five_fields ToLower_ascii manager_unnamed_bad
     = ("", Some (Opaque "expected exactly 5 fields"))
  /\ snd partial
     = Some (Wrapped "add cron= failed: expected exactly 5 fields"
                     (Opaque "expected exactly 5 fields"))
  /\ running (cron (fst partial)) = false
  /\ (fun e => (ID e, entry_spec e, cl_name (entry_job e))) <$> entries (cron (fst partial))
     = [(1, "0 0 * * *", "f1")].
Proof. vm_compute. repeat split. Qed.

Section RunLoop.

Variable ParseStandard : string -> option error.
Variable ToLower : string -> string.

Lemma Run_iter_spec (t : Time) (cm : Manager) (k : nat) (j : job) :
  jobs cm !! k = Some j ->
  0 <= nextID (cron cm) ->
  match Run_iter ParseStandard t cm k with
  | inl cm' =>
      exists j',
        jobs cm' = <[k := j']> (jobs cm)
        /\ middleware cm' = middleware cm
        /\ activated k j j'
        /\ running (cron cm') = running (cron cm)
        /\ ((IsActive (schedule j) = false /\ cron cm' = cron cm)
            \/ (IsActive (schedule j) = true
                /\ nextID (cron cm') = nextID (cron cm) + 1
                /\ exists e, entries (cron cm') = entries (cron cm) ++ [e]
                             /\ ID e = nextID (cron cm) + 1
                             /\ entry_job e = closure_of k j))
  | inr _ => IsActive (schedule j) = true /\ ParseStandard (schedule j) <> None
  end.
Proof.
  intros Hj Hid.
  assert (Hlt : (k < length (jobs cm))%nat) by (eapply lookup_lt_Some; eauto).
  unfold Run_iter. rewrite Hj. destruct (IsActive (schedule j)) eqn:Hact; simpl.
  - unfold cron_AddFunc. destruct (ParseStandard (schedule j)) as [e|] eqn:Hp.
    + split; [done|]. congruence.
    + unfold updateID. simpl. rewrite Hj. simpl. eexists.
      split; [reflexivity|]. split; [done|]. split.
      { unfold activated. simpl. rewrite Hact. repeat split; try done. lia. }
      split; [done|]. right. split; [done|]. split; [done|].
      eexists. split; [reflexivity|]. done.
  - unfold updateID. rewrite Hj. unfold updateState. simpl.
    rewrite list_lookup_insert_eq by done. simpl.
    rewrite list_insert_insert_eq. eexists.
    split; [reflexivity|]. split; [done|]. split.
    { unfold activated. simpl. rewrite Hact. repeat split; try done. lia. }
    split; [done|]. by left.
Qed.

Lemma issued_AddFunc (c c' : Cron) (e : Entry) :
  issued c ->
  nextID c' = nextID c + 1 ->
  entries c' = entries c ++ [e] ->
  ID e = nextID c + 1 ->
  issued c'.
Proof.
  intros [H0 Hall] Hn Hes He. unfold issued. rewrite Hn, Hes. split; [lia|].
  apply Forall_app. split.
  - eapply Forall_impl; [exact Hall|]. simpl. intros x ?. lia.
  - constructor; [|constructor]. lia.
Qed.

Lemma Run_inv_start (cm0 : Manager) :
  cron cm0 = cron_New -> Run_inv cm0 0 cm0.
Proof.
  intros Hc. unfold Run_inv. rewrite Hc.
  split; [done|]. split; [done|]. split; [by intros i j _ ?|].
  split; [intros i j Hi; lia|]. split; [split; [done|constructor]|].
  split; [constructor|done].
Qed.

Lemma Run_inv_step (cm0 cm : Manager) (k : nat) (t : Time) :
  Run_inv cm0 k cm ->
  (k < length (jobs cm0))%nat ->
  match Run_iter ParseStandard t cm k with
  | inl cm' => Run_inv cm0 (S k) cm'
  | inr _ => exists j, jobs cm0 !! k = Some j /\ ~ parses ParseStandard j
  end.
Proof.
  intros (Hmw & Hnames & Hun & Hact & Hiss & Hent & Hrun) Hk.
  destruct (lookup_lt_is_Some_2 (jobs cm0) k Hk) as [j Hj0].
  assert (Hj : jobs cm !! k = Some j) by (apply Hun; [lia|done]).
  pose proof (Run_iter_spec t cm k j Hj (proj1 Hiss)) as Hspec.
  destruct (Run_iter ParseStandard t cm k) as [cm'|failure].
  - destruct Hspec as (j' & Hjobs & Hmw' & Hj' & Hrun' & Hcron).
    assert (Hlt : (k < length (jobs cm))%nat) by (eapply lookup_lt_Some; eauto).
    unfold Run_inv. rewrite Hjobs.
    split; [congruence|]. split.
    { rewrite list_fmap_insert, list_insert_id; [done|].
      rewrite list_lookup_fmap, Hj. simpl. f_equal. symmetry. apply Hj'. }
    split.
    { intros i x Hi Hx. rewrite list_lookup_insert_ne by lia. apply Hun; [lia|done]. }
    split.
    { intros i x Hi Hx. destruct (decide (i = k)) as [->|Hne].
      - rewrite list_lookup_insert_eq by done. exists j'. split; [done|].
        rewrite Hj0 in Hx. by injection Hx as <-.
      - rewrite list_lookup_insert_ne by done. apply Hact; [lia|done]. }
    destruct Hcron as [[Hoff ->]|(Hon & Hnext & e & Hes & He & Hjob)].
    + split; [done|]. split; [done|]. congruence.
    + split; [by eapply issued_AddFunc|]. split; [|congruence].
      rewrite Hes. apply Forall_app. split; [done|].
      constructor; [|constructor]. exists j. rewrite Hjob. simpl. done.
  - destruct Hspec as [Hon Hbad]. exists j. split; [done|].
    intros Hp. by apply Hbad, Hp.
Qed.

Lemma Run_loop_spec (cm0 : Manager) (now : nat -> Time) (n k : nat) (cm : Manager) :
  Run_inv cm0 k cm ->
  (k + n = length (jobs cm0))%nat ->
  match Run_loop ParseStandard now cm (seq k n) with
  | inl cm' => Run_inv cm0 (length (jobs cm0)) cm'
  | inr _ => exists i j, jobs cm0 !! i = Some j /\ ~ parses ParseStandard j
  end.
Proof.
  revert k cm. induction n as [|n IH]; intros k cm Hinv Hlen.
  - simpl. by replace (length (jobs cm0)) with k by lia.
  - simpl. pose proof (Run_inv_step cm0 cm k (now k) Hinv ltac:(lia)) as Hstep.
    destruct (Run_iter ParseStandard (now k) cm k) as [cm'|failure].
    + apply IH; [done|lia].
    + destruct Hstep as (j & Hj & Hbad). by exists k, j.
Qed.

Lemma validateJobs_loop_ok (js : list job) (names : gset string) :
  validateJobs_loop ParseStandard ToLower names js = ("", None) ->
  Forall (parses ParseStandard) js
  /\ NoDup (lowered ToLower js)
  /\ (forall n, n ∈ lowered ToLower js -> n ∉ names).
Proof.
  revert names. induction js as [|j js IH]; intros names Hv.
  - split; [constructor|]. split; [constructor|].
    intros n Hn. by apply elem_of_nil in Hn.
  - simpl in Hv.
    destruct (decide (ToLower (name j) ∈ names)) as [Hin|Hfresh]; [discriminate|].
    assert (Hrest : validateJobs_loop ParseStandard ToLower ({[ToLower (name j)]} ∪ names) js
                    = ("", None) /\ parses ParseStandard j).
    { unfold parses. destruct (IsActive (schedule j)); [|done].
      destruct (ParseStandard (schedule j)); [discriminate|done]. }
    destruct Hrest as [Hrest Hpj].
    destruct (IH _ Hrest) as (Hok & Hnd & Hdisj).
    split; [by constructor|]. unfold lowered in *. rewrite fmap_cons. split.
    + apply NoDup_cons. split; [|done].
      intros Hdup. apply (Hdisj _ Hdup).
      apply elem_of_union_l. by apply elem_of_singleton.
    + intros n Hn. apply elem_of_cons in Hn as [->|Hn]; [done|].
      intros Hin. apply (Hdisj _ Hn). by apply elem_of_union_r.
Qed.

(** [Run] on a manager that has not been activated: when it returns
    nil every job has been through the registration loop and the
    scheduler has been started. *)
Lemma Run_nil (cm0 : Manager) (now : nat -> Time) :
  cron cm0 = cron_New ->
  snd (Run ParseStandard ToLower now cm0) = None ->
  exists cm,
    fst (Run ParseStandard ToLower now cm0) = set_cron (cron_Start (cron cm)) cm
    /\ Run_inv cm0 (length (jobs cm0)) cm.
Proof.
  intros Hc Hnil. unfold Run in *.
  destruct (validateJobs ParseStandard ToLower cm0) as [nm e].
  destruct (negb (String.eqb nm "")); [discriminate|].
  pose proof (Run_loop_spec cm0 now (length (jobs cm0)) 0 cm0
                (Run_inv_start cm0 Hc) eq_refl) as Hloop.
  destruct (Run_loop ParseStandard now cm0 (seq 0 (length (jobs cm0)))) as [cm|[cm e']].
  - exists cm. done.
  - discriminate.
Qed.

(** When validation passes, [Run] returns nil. *)
Lemma Run_valid (cm0 : Manager) (now : nat -> Time) :
  cron cm0 = cron_New ->
  validateJobs ParseStandard ToLower cm0 = ("", None) ->
  snd (Run ParseStandard ToLower now cm0) = None.
Proof.
  intros Hc Hv. unfold Run. rewrite Hv. simpl.
  pose proof (Run_loop_spec cm0 now (length (jobs cm0)) 0 cm0
                (Run_inv_start cm0 Hc) eq_refl) as Hloop.
  destruct (Run_loop ParseStandard now cm0 (seq 0 (length (jobs cm0)))) as [cm|[cm e']].
  - done.
  - exfalso. destruct Hloop as (i & j & Hj & Hbad).
    destruct (validateJobs_loop_ok _ _ Hv) as (Hok & _ & _).
    apply Hbad. eapply Forall_lookup_1; eauto.
Qed.

(** A failure of the registration loop gives the manager back as the
    iterations before it left it. *)
Lemma Run_iter_failure (t : Time) (cm cm' : Manager) (k : nat) (e : error) :
  Run_iter ParseStandard t cm k = inr (cm', e) -> cm' = cm.
Proof.
  unfold Run_iter. destruct (jobs cm !! k) as [j|]; [|discriminate].
  destruct (negb (IsActive (schedule j))); [discriminate|].
  unfold cron_AddFunc. destruct (ParseStandard (schedule j)); [|discriminate].
  intros H. injection H as <- _. by destruct cm.
Qed.

Lemma Run_loop_failure (cm0 : Manager) (now : nat -> Time) (n k : nat)
    (cm cm' : Manager) (e : error) :
  Run_inv cm0 k cm ->
  (k + n = length (jobs cm0))%nat ->
  Run_loop ParseStandard now cm (seq k n) = inr (cm', e) ->
  exists i j,
    jobs cm0 !! i = Some j /\ ~ parses ParseStandard j /\ Run_inv cm0 i cm'.
Proof.
  revert k cm. induction n as [|n IH]; intros k cm Hinv Hlen Hrun; simpl in Hrun.
  - discriminate.
  - pose proof (Run_inv_step cm0 cm k (now k) Hinv ltac:(lia)) as Hstep.
    destruct (Run_iter ParseStandard (now k) cm k) as [cm1|[cm1 e1]] eqn:Hit.
    + apply (IH (S k) cm1); [done|lia|done].
    + injection Hrun as <- <-. apply Run_iter_failure in Hit as ->.
      destruct Hstep as (j & Hj & Hbad). by exists k, j.
Qed.

(** [Run] on a manager that has not been activated: when it passes its
    guard and returns an error, the registration loop has stopped at a
    job whose schedule does not parse, with the jobs before it
    activated and the others untouched. *)
Lemma Run_failure (cm0 : Manager) (now : nat -> Time) :
  cron cm0 = cron_New ->
  fst (validateJobs ParseStandard ToLower cm0) = "" ->
  is_Some (snd (Run ParseStandard ToLower now cm0)) ->
  exists i j,
    jobs cm0 !! i = Some j /\ ~ parses ParseStandard j
    /\ Run_inv cm0 i (fst (Run ParseStandard ToLower now cm0)).
Proof.
  intros Hc Hnm Herr. unfold Run in *.
  destruct (validateJobs ParseStandard ToLower cm0) as [nm e]. simpl in Hnm. subst nm.
  simpl in *.
  destruct (Run_loop ParseStandard now cm0 (seq 0 (length (jobs cm0))))
    as [cm|[cm e']] eqn:Hloop.
  - simpl in Herr. by destruct Herr.
  - simpl. eapply Run_loop_failure; [by apply Run_inv_start| |exact Hloop]. done.
Qed.

End RunLoop.

(** ** Lookups by name and by identifier *)

Lemma find_first_match (EqualFold : string -> string -> bool)
    (js pre post : list job) (j : job) (id : string) :
  js = pre ++ j :: post ->
  Forall (fun j' => EqualFold (name j') id = false) pre ->
  EqualFold (name j) id = true ->
  List.find (fun j' => EqualFold (name j') id) js = Some j.
Proof.
  intros -> Hpre Hj. induction Hpre as [|h pre Hh Hpre IH]; simpl.
  - by rewrite Hj.
  - by rewrite Hh.
Qed.

Lemma find_same_names (EqualFold : string -> string -> bool)
    (js js' pre post : list job) (j : job) (id : string) :
  name <$> js' = name <$> js ->
  js = pre ++ j :: post ->
  Forall (fun j' => EqualFold (name j') id = false) pre ->
  EqualFold (name j) id = true ->
  exists j',
    js' !! length pre = Some j'
    /\ List.find (fun x => EqualFold (name x) id) js' = Some j'.
Proof.
  intros Hnames -> Hpre Hj. revert js' Hnames.
  induction Hpre as [|h pre Hh Hpre IH]; intros js' Hnames.
  - destruct js' as [|j' js']; [discriminate|].
    simpl in Hnames. injection Hnames as Hn _.
    exists j'. split; [done|]. simpl. by rewrite Hn, Hj.
  - destruct js' as [|h' js']; [discriminate|].
    simpl in Hnames. injection Hnames as Hn Hrest.
    destruct (IH js' Hrest) as (j' & Hlook & Hfind).
    exists j'. split; [done|]. simpl. by rewrite Hn, Hh.
Qed.

(** The job at position [idx] is the first match of [id] when it
    matches and no job before it does. *)
Lemma first_match_at (EqualFold : string -> string -> bool)
    (js : list job) (idx : nat) (j : job) (id : string) :
  js !! idx = Some j ->
  (forall k j2, (k < idx)%nat -> js !! k = Some j2 -> EqualFold (name j2) id = false) ->
  js = take idx js ++ j :: drop (S idx) js
  /\ length (take idx js) = idx
  /\ Forall (fun j' => EqualFold (name j') id = false) (take idx js).
Proof.
  intros Hj Hfirst.
  assert (Hlt : (idx < length js)%nat) by (eapply lookup_lt_Some; eauto).
  split; [by rewrite take_drop_middle|].
  split; [rewrite length_take; lia|].
  apply Forall_lookup_2. intros k x Hk.
  apply lookup_take_Some in Hk as [Hk Hlt']. by apply (Hfirst k).
Qed.

Lemma activated_cronFn (js js' : list job) (k : nat) :
  (forall i x, (i < k)%nat -> js !! i = Some x ->
               exists x', js' !! i = Some x' /\ activated i x x') ->
  forall i x, (i < k)%nat -> js !! i = Some x ->
              exists x', js' !! i = Some x' /\ cronFn x' = Some (closure_of i x).
Proof.
  intros Hact i x Hi Hx. destruct (Hact i x Hi Hx) as (x' & Hx' & Ha).
  exists x'. split; [done|]. apply Ha.
Qed.

(** What [ManualRun] does on a manager that the registration loop has
    brought to iteration [k]: it runs the closure of the first match
    when the loop has been through it, and calls its [cronFn] as the
    registration left it otherwise. *)
Lemma ManualRun_during_loop (EqualFold : string -> string -> bool)
    (cm0 cm : Manager) (k : nat) (ctx : Context) (id : string) (w : World)
    (pre post : list job) (j : job) :
  name <$> jobs cm = name <$> jobs cm0 ->
  (forall i x, (k <= i)%nat -> jobs cm0 !! i = Some x -> jobs cm !! i = Some x) ->
  (forall i x, (i < k)%nat -> jobs cm0 !! i = Some x ->
               exists x', jobs cm !! i = Some x' /\ cronFn x' = Some (closure_of i x)) ->
  jobs cm0 = pre ++ j :: post ->
  Forall (fun j' => EqualFold (name j') id = false) pre ->
  EqualFold (name j) id = true ->
  ((length pre < k)%nat ->
   ManualRun EqualFold cm ctx id w = cronFnCtx (closure_of (length pre) j) cm ctx w)
  /\ ((k <= length pre)%nat -> cronFn j = None ->
      ManualRun EqualFold cm ctx id w = (cm, w, Panicked NilFuncCall)).
Proof.
  intros Hnames Hun Hact Hjobs Hpre Hj.
  destruct (find_same_names EqualFold _ _ _ _ _ id Hnames Hjobs Hpre Hj)
    as (j' & Hlook & Hfind).
  assert (Hat : jobs cm0 !! length pre = Some j).
  { rewrite Hjobs. by rewrite list_lookup_middle. }
  unfold ManualRun. rewrite Hfind. split.
  - intros Hlt. destruct (Hact _ _ Hlt Hat) as (j2 & Hj2 & Hcl).
    rewrite Hlook in Hj2. injection Hj2 as <-. by rewrite Hcl.
  - intros Hge Hnone. rewrite (Hun _ _ Hge Hat) in Hlook. injection Hlook as <-.
    by rewrite Hnone.
Qed.

Lemma entryIndex_fresh (es : list Entry) (i : Z) :
  Forall (fun e => ID e <> i) es -> entryIndex es !! i = None.
Proof.
  unfold entryIndex. generalize (∅ : gmap Z Entry) (lookup_empty (M:=gmap Z) (A:=Entry) i).
  induction es as [|e es IH]; intros m Hm Hall; simpl; [done|].
  apply Forall_cons in Hall as [He Hall].
  apply IH; [|done]. by rewrite lookup_insert_ne.
Qed.

Lemma registered_fresh (cm : Manager) :
  registered cm ->
  cron cm = cron_New /\ Forall (fun j => cronFn j = None) (jobs cm).
Proof.
  induction 1 as [|nm sched f cm _ [Hc Hj]|nm sched f cm _ [Hc Hj]|ms cm _ [Hc Hj]];
    simpl.
  - split; [done|constructor].
  - split; [done|]. apply Forall_app. split; [done|]. by repeat constructor.
  - split; [done|]. apply Forall_app. split; [done|]. by repeat constructor.
  - done.
Qed.

(** ** Disabled jobs and the manual trigger *)

(** C9, as amended. When activation of a fresh manager returns nil, a
    job whose schedule is empty or the disabled sentinel has not been
    added to the scheduler, its phase is [disabled] and its identifier
    is [-idx], where [idx] is its position in the registry: zero for
    the first registered job and negative for the others, and
    different from every identifier the scheduler issues, which are
    positive.  [ManualRun] runs the job under every name that matches
    its name and the name of no job registered before it, and its
    snapshot reports zero previous and next run times whatever times
    the scheduler records for its entries. *)
Theorem Run_disabled_job (ParseStandard : string -> option error)
    (ToLower : string -> string) (EqualFold : string -> string -> bool)
    (now : nat -> Time) (cm : Manager) (idx : nat) (j : job) :
  cron cm = cron_New ->
  snd (Run ParseStandard ToLower now cm) = None ->
  jobs cm !! idx = Some j ->
  IsActive (schedule j) = false ->
  exists j',
    jobs (fst (Run ParseStandard ToLower now cm)) !! idx = Some j'
    /\ id j' = - Z.of_nat idx
    /\ id j' <= 0
    /\ state (last j') = stateDisabled
    /\ (forall e, e ∈ entries (cron (fst (Run ParseStandard ToLower now cm))) ->
                  1 <= ID e /\ ID e <> id j' /\ cl_idx (entry_job e) <> idx)
    /\ (forall id ctx w,
          EqualFold (name j) id = true ->
          (forall k j2, (k < idx)%nat -> jobs cm !! k = Some j2 ->
                        EqualFold (name j2) id = false) ->
          ManualRun EqualFold (fst (Run ParseStandard ToLower now cm)) ctx id w
          = cronFnCtx (closure_of idx j) (fst (Run ParseStandard ToLower now cm)) ctx w)
    /\ (forall c : Cron,
          Forall (fun e => 1 <= ID e) (entries c) ->
          exists st,
            State (set_cron c (fst (Run ParseStandard ToLower now cm))) !! idx = Some st
            /\ st_ID st = - Z.of_nat idx
            /\ st_LastState st = "disabled"
            /\ st_LastRun st = 0
            /\ st_NextRun st = 0).
Proof.
  intros Hc Hnil Hj Hoff.
  destruct (Run_nil ParseStandard ToLower cm now Hc Hnil) as (cm1 & -> & Hinv).
  pose proof Hinv as (Hmw & Hnames & _ & Hact & Hiss & Hent & _).
  assert (Hlt : (idx < length (jobs cm))%nat) by (eapply lookup_lt_Some; eauto).
  destruct (Hact idx j Hlt Hj) as (j' & Hj' & Hn & Hs & Hm & Hf & Hcl & Hid).
  rewrite Hoff in Hid. destruct Hid as (Hid & Hst & Herr).
  exists j'. simpl. split; [done|]. split; [done|]. split; [lia|]. split; [done|].
  split; [|split].
  - intros e He. destruct Hiss as [_ Hall].
    rewrite Forall_forall in Hall, Hent.
    specialize (Hall e He). destruct (Hent e He) as (j2 & Hj2 & Hon).
    split; [lia|]. split; [lia|].
    intros Heq. rewrite Heq, Hj in Hj2. injection Hj2 as <-. congruence.
  - intros id0 ctx w Hmatch Hfirst.
    destruct (first_match_at EqualFold _ _ _ _ Hj Hfirst) as (Hsplit & Hlen & Hpre).
    destruct Hinv as (_ & _ & Hun & _).
    destruct (ManualRun_during_loop EqualFold cm (set_cron (cron_Start (cron cm1)) cm1)
                (length (jobs cm)) ctx id0 w _ _ j Hnames Hun
                (activated_cronFn _ _ _ Hact) Hsplit Hpre Hmatch)
      as [Hruns _].
    rewrite Hlen in Hruns. by apply Hruns.
  - intros c Hpos. unfold State. simpl. rewrite list_lookup_fmap, Hj'. simpl.
    eexists. split; [reflexivity|].
    unfold State_of_job. rewrite entryIndex_fresh.
    + simpl. by rewrite Hid, Hst.
    + eapply Forall_impl; [exact Hpos|]. simpl. intros e He. lia.
Qed.

Lemma Run_disabled_job_f5 :
  exists j',
    jobs (fst (Run five_fields ToLower_ascii (fun _ => 5) manager_f5)) !! 0%nat = Some j'
    /\ id j' = - Z.of_nat 0
    /\ id j' <= 0
    /\ state (last j') = stateDisabled
    /\ (forall e, e ∈ entries (cron (fst (Run five_fields ToLower_ascii (fun _ => 5) manager_f5))) ->
                  1 <= ID e /\ ID e <> id j' /\ cl_idx (entry_job e) <> 0%nat)
    /\ (forall id ctx w,
          EqualFold_ascii "f5" id = true ->
          (forall k j2, (k < 0)%nat -> jobs manager_f5 !! k = Some j2 ->
                        EqualFold_ascii (name j2) id = false) ->
          ManualRun EqualFold_ascii (fst (Run five_fields ToLower_ascii (fun _ => 5) manager_f5))
                    ctx id w
          = cronFnCtx (closure_of 0 (newJob "f5" "" (newCronFunc "f5") false))
                      (fst (Run five_fields ToLower_ascii (fun _ => 5) manager_f5)) ctx w)
    /\ (forall c : Cron,
          Forall (fun e => 1 <= ID e) (entries c) ->
          exists st,
            State (set_cron c (fst (Run five_fields ToLower_ascii (fun _ => 5) manager_f5))) !! 0%nat
            = Some st
            /\ st_ID st = - Z.of_nat 0
            /\ st_LastState st = "disabled"
            /\ st_LastRun st = 0
            /\ st_NextRun st = 0).
Proof.
  apply (Run_disabled_job five_fields ToLower_ascii EqualFold_ascii (fun _ => 5) manager_f5 0
           (newJob "f5" "" (newCronFunc "f5") false)).
  - reflexivity.
  - vm_compute. reflexivity.
  - reflexivity.
  - reflexivity.
Defined.

(** The identifier of a disabled job is not always negative: the job
    registered first gets 0. *)
Lemma first_disabled_job_gets_zero :
  schedule <$> jobs manager_f5 = [""; "* * * * *"]
  /\ snd (Run five_fields ToLower_ascii (fun _ => 5) manager_f5) = None
  /\ id <$> jobs (fst (Run five_fields ToLower_ascii (fun _ => 5) manager_f5)) = [0; 1]
  /\ (fun j => state (last j)) <$> jobs (fst (Run five_fields ToLower_ascii (fun _ => 5) manager_f5))
     = [stateDisabled; stateIdle]
  /\ ~ (forall i, i ∈ (id <$> take 1 (jobs (fst (Run five_fields ToLower_ascii (fun _ => 5) manager_f5))))
                   -> i < 0).
Proof.
  split; [reflexivity|]. split; [vm_compute; reflexivity|].
  split; [vm_compute; reflexivity|]. split; [vm_compute; reflexivity|].
  intros H. specialize (H 0).
  assert (0 < 0); [|lia]. apply H. vm_compute. apply list_elem_of_here.
Qed.

(** A disabled job registered after a job whose name matches every
    name that its own matches is out of reach of [ManualRun]: with two
    jobs of the empty name, which [Run] activates, the trigger runs
    the first. *)
Lemma second_unnamed_job_is_shadowed :
  let activated := Run five_fields ToLower_ascii (fun _ => 5) manager_unnamed in
  snd activated = None
  /\ (fun j => state (last j)) <$> jobs (fst activated) = [stateDisabled; stateDisabled]
  /\ (forall ctx w,
        ManualRun EqualFold_ascii (fst activated) ctx "" w
        = cronFnCtx (closure_of 0 (newJob "" "" (newCronFunc "first") false))
                    (fst activated) ctx w).
Proof.
  split; [vm_compute; reflexivity|]. split; [vm_compute; reflexivity|].
  intros ctx w. reflexivity.
Qed.

(** C10. On [manager_unnamed_bad] (job [f1], then a job with the empty
    name whose schedule does not parse) [ManualRun] with the name
    [f1] calls a nil function before [Run].  Validation fails on the
    second job and returns the empty name, so [Run] goes on, stores
    the closure of [f1], and returns the error of the scheduler for
    the second job: after this failed [Run] the same call of
    [ManualRun] runs the job and returns nil, while the empty name
    still calls a nil function. *)
Theorem ManualRun_after_failed_Run :
  let w := mkWorld ∅ 0 [] in
  let failed := Run five_fields ToLower_ascii (fun _ => 5) manager_unnamed_bad in
  ManualRun EqualFold_ascii manager_unnamed_bad Background "f1" w
  = (manager_unnamed_bad, w, Panicked NilFuncCall)
  /\ validateJobs five_fields ToLower_ascii manager_unnamed_bad
     = ("", Some (Opaque "expected exactly 5 fields"))
  /\ snd failed
     = Some (Wrapped "add cron= failed: expected exactly 5 fields"
                     (Opaque "expected exactly 5 fields"))
  /\ snd (ManualRun EqualFold_ascii (fst failed) Background "f1" w) = Returned None
  /\ trace (snd (fst (ManualRun EqualFold_ascii (fst failed) Background "f1" w)))
     = [EvJob "f1"]
  /\ ManualRun EqualFold_ascii (fst failed) Background "" w
     = (fst failed, w, Panicked NilFuncCall).
Proof. vm_compute. repeat split. Qed.

(** X26. [ManualRun] calls the stored closure of the first job, in
    registration order, whose name matches the given one, and the
    closure is stored by the registration loop of [Run] only.  On a
    manager built by the registration calls a name that matches a job
    makes [ManualRun] call a nil function (a panic, not an error
    value); so it does after a [Run] that returned at its validation
    guard, which leaves the manager as it was.  After a [Run] that
    returned nil the same call runs the closure of that job.  After a
    [Run] that failed in the registration loop, which needs a failed
    validation with the empty name, it runs the closure when the job
    is registered before the one the loop stopped at, and calls a nil
    function otherwise. *)
Theorem ManualRun_needs_Run (ParseStandard : string -> option error)
    (ToLower : string -> string) (EqualFold : string -> string -> bool)
    (now : nat -> Time) (cm : Manager) (ctx : Context) (id : string) (w : World)
    (pre post : list job) (j : job) :
  registered cm ->
  jobs cm = pre ++ j :: post ->
  Forall (fun j' => EqualFold (name j') id = false) pre ->
  EqualFold (name j) id = true ->
  ManualRun EqualFold cm ctx id w = (cm, w, Panicked NilFuncCall)
  /\ (fst (validateJobs ParseStandard ToLower cm) <> "" ->
      is_Some (snd (Run ParseStandard ToLower now cm))
      /\ fst (Run ParseStandard ToLower now cm) = cm
      /\ ManualRun EqualFold (fst (Run ParseStandard ToLower now cm)) ctx id w
         = (fst (Run ParseStandard ToLower now cm), w, Panicked NilFuncCall))
  /\ (snd (Run ParseStandard ToLower now cm) = None ->
      ManualRun EqualFold (fst (Run ParseStandard ToLower now cm)) ctx id w
      = cronFnCtx (closure_of (length pre) j) (fst (Run ParseStandard ToLower now cm)) ctx w)
  /\ (fst (validateJobs ParseStandard ToLower cm) = "" ->
      is_Some (snd (Run ParseStandard ToLower now cm)) ->
      snd (validateJobs ParseStandard ToLower cm) <> None
      /\ exists i bad,
          jobs cm !! i = Some bad
          /\ ~ parses ParseStandard bad
          /\ ((length pre < i)%nat ->
              ManualRun EqualFold (fst (Run ParseStandard ToLower now cm)) ctx id w
              = cronFnCtx (closure_of (length pre) j)
                          (fst (Run ParseStandard ToLower now cm)) ctx w)
          /\ ((i <= length pre)%nat ->
              ManualRun EqualFold (fst (Run ParseStandard ToLower now cm)) ctx id w
              = (fst (Run ParseStandard ToLower now cm), w, Panicked NilFuncCall))).
Proof.
  intros Hreg Hjobs Hpre Hj.
  destruct (registered_fresh cm Hreg) as [Hc Hnone].
  assert (Hcl : cronFn j = None).
  { rewrite Forall_forall in Hnone. apply Hnone.
    rewrite Hjobs. apply elem_of_app. right. apply list_elem_of_here. }
  assert (Hnil : ManualRun EqualFold cm ctx id w = (cm, w, Panicked NilFuncCall)).
  { unfold ManualRun. rewrite (find_first_match EqualFold _ _ _ _ _ Hjobs Hpre Hj).
    by rewrite Hcl. }
  split; [done|]. split; [|split].
  - intros Hbad. destruct (Run_rejects ParseStandard ToLower now cm Hbad) as [-> Herr]. done.
  - intros Hok.
    destruct (Run_nil ParseStandard ToLower cm now Hc Hok)
      as (cm1 & -> & _ & Hnames & Hun & Hact & _).
    destruct (ManualRun_during_loop EqualFold cm (set_cron (cron_Start (cron cm1)) cm1)
                (length (jobs cm)) ctx id w _ _ j Hnames Hun
                (activated_cronFn _ _ _ Hact) Hjobs Hpre Hj)
      as [Hruns _].
    apply Hruns. rewrite Hjobs, length_app. simpl. lia.
  - intros Hnm Herr. split.
    + intros Hv.
      assert (Hvalid : validateJobs ParseStandard ToLower cm = ("", None)).
      { destruct (validateJobs ParseStandard ToLower cm) as [nm e]. simpl in *. congruence. }
      rewrite (Run_valid ParseStandard ToLower cm now Hc Hvalid) in Herr.
      by destruct Herr.
    + destruct (Run_failure ParseStandard ToLower cm now Hc Hnm Herr)
        as (i & bad & Hbad & Hnp & _ & Hnames & Hun & Hact & _).
      exists i, bad. split; [done|]. split; [done|].
      destruct (ManualRun_during_loop EqualFold cm _ i ctx id w _ _ j
                  Hnames Hun (activated_cronFn _ _ _ Hact) Hjobs Hpre Hj)
        as [Hruns Hnilcall].
      split; [done|]. intros Hge. by apply Hnilcall.
Qed.

Lemma ManualRun_needs_Run_f1 :
  ManualRun EqualFold_ascii manager_unnamed_bad Background "F1" (mkWorld ∅ 0 [])
  = (manager_unnamed_bad, mkWorld ∅ 0 [], Panicked NilFuncCall)
  /\ exists i bad,
      jobs manager_unnamed_bad !! i = Some bad
      /\ ~ parses five_fields bad
      /\ ((0 < i)%nat ->
          ManualRun EqualFold_ascii
                    (fst (Run five_fields ToLower_ascii (fun _ => 5) manager_unnamed_bad))
                    Background "F1" (mkWorld ∅ 0 [])
          = cronFnCtx (closure_of 0 (newJob "f1" "0 0 * * *" (newCronFunc "f1") false))
                      (fst (Run five_fields ToLower_ascii (fun _ => 5) manager_unnamed_bad))
                      Background (mkWorld ∅ 0 []))
      /\ ((i <= 0)%nat ->
          ManualRun EqualFold_ascii
                    (fst (Run five_fields ToLower_ascii (fun _ => 5) manager_unnamed_bad))
                    Background "F1" (mkWorld ∅ 0 [])
          = (fst (Run five_fields ToLower_ascii (fun _ => 5) manager_unnamed_bad),
             mkWorld ∅ 0 [], Panicked NilFuncCall)).
Proof.
  destruct (ManualRun_needs_Run five_fields ToLower_ascii EqualFold_ascii (fun _ => 5)
              manager_unnamed_bad Background "F1" (mkWorld ∅ 0 []) []
              [newJob "" "invalid" (newCronFunc "bad") false]
              (newJob "f1" "0 0 * * *" (newCronFunc "f1") false))
    as (Hbefore & _ & _ & Hloop).
  - unfold manager_unnamed_bad. repeat constructor.
  - reflexivity.
  - constructor.
  - reflexivity.
  - split; [exact Hbefore|].
    destruct Hloop as [_ Hstop]; [reflexivity|by eexists|]. exact Hstop.
Defined.

(** * Further properties of the code *)

(** ** Contexts *)

Lemma key_eqb_refl (k : Ctx.key) : Ctx.key_eqb k k = true.
Proof. destruct k; simpl; apply String.eqb_refl. Qed.

Lemma key_eqb_struct (a b : string) :
  a <> b -> Ctx.key_eqb (Ctx.structKey a) (Ctx.structKey b) = false.
Proof. intros H. simpl. by apply String.eqb_neq. Qed.

(** X1. The three annotations of the package on a chain of values:
    each reader returns what its writer stored last, a writer leaves
    the other two annotations as they were, and on a context without
    the annotation the readers return the empty name and false. *)
Theorem annotations_set_once_read_anywhere (ctx : Ctx.context) (n n' : string) (b b' : bool) :
  Ctx.NameFromContext (Ctx.NewNameContext ctx n) = n
  /\ Ctx.MaintenanceFromContext (Ctx.NewMaintenanceContext ctx b) = b
  /\ Ctx.IsDevelFromContext (Ctx.NewIsDevelContext ctx b) = b
  /\ Ctx.NameFromContext (Ctx.NewNameContext (Ctx.NewNameContext ctx n) n') = n'
  /\ Ctx.MaintenanceFromContext (Ctx.NewMaintenanceContext (Ctx.NewMaintenanceContext ctx b) b')
     = b'
  /\ Ctx.NameFromContext (Ctx.NewMaintenanceContext ctx b) = Ctx.NameFromContext ctx
  /\ Ctx.NameFromContext (Ctx.NewIsDevelContext ctx b) = Ctx.NameFromContext ctx
  /\ Ctx.MaintenanceFromContext (Ctx.NewNameContext ctx n) = Ctx.MaintenanceFromContext ctx
  /\ Ctx.MaintenanceFromContext (Ctx.NewIsDevelContext ctx b) = Ctx.MaintenanceFromContext ctx
  /\ Ctx.IsDevelFromContext (Ctx.NewNameContext ctx n) = Ctx.IsDevelFromContext ctx
  /\ Ctx.IsDevelFromContext (Ctx.NewMaintenanceContext ctx b) = Ctx.IsDevelFromContext ctx
  /\ Ctx.NameFromContext Ctx.Background = ""
  /\ Ctx.MaintenanceFromContext Ctx.Background = false
  /\ Ctx.IsDevelFromContext Ctx.Background = false.
Proof. repeat split. Qed.

(** X2. [ContextValue[K, T]] on a chain of values, for a type whose
    assertion reads back what was stored: [FromContext] returns the
    value stored last under [K]; a value stored under another key type
    is not seen and does not hide anything; without a value the zero
    value is returned; and a value of another type stored under the
    same [K] makes [FromContext] return the zero value, also when an
    older value of the right type is below it. *)
Theorem ContextValue_store_and_retrieve {T U : Type} (p : Ctx.ContextValue T)
    (q : Ctx.ContextValue U) (ctx : Ctx.context) (v v' : T) (u : U) :
  Ctx.faithful p ->
  Ctx.cv_FromContext p (Ctx.cv_WithValue p ctx v) = v
  /\ Ctx.cv_FromContext p (Ctx.cv_WithValue p (Ctx.cv_WithValue p ctx v) v') = v'
  /\ Ctx.cv_FromContext p Ctx.Background = Ctx.cv_zero p
  /\ (Ctx.cv_key q <> Ctx.cv_key p ->
      Ctx.cv_FromContext p (Ctx.cv_WithValue q ctx u) = Ctx.cv_FromContext p ctx)
  /\ (Ctx.cv_key q = Ctx.cv_key p ->
      Ctx.cv_assert p (Ctx.cv_box q u) = None ->
      Ctx.cv_FromContext p (Ctx.cv_WithValue q (Ctx.cv_WithValue p ctx v) u) = Ctx.cv_zero p).
Proof.
  intros Hp. unfold Ctx.cv_FromContext, Ctx.cv_WithValue, Ctx.WithValue.
  cbn [Ctx.Value]. rewrite !key_eqb_refl, !Hp.
  split; [done|]. split; [done|]. split; [done|]. split.
  - intros Hne. by rewrite key_eqb_struct.
  - intros -> Hno. by rewrite key_eqb_refl, Hno.
Qed.

Lemma ContextValue_store_and_retrieve_string :
  let cv := Ctx.stringValue "keyString" in
  let other := Ctx.intValue "keyInt" in
  let clash := Ctx.intValue "keyString" in
  Ctx.cv_FromContext cv (Ctx.cv_WithValue cv Ctx.Background "hello") = "hello"
  /\ Ctx.cv_FromContext cv
       (Ctx.cv_WithValue cv (Ctx.cv_WithValue cv Ctx.Background "first") "second")
     = "second"
  /\ Ctx.cv_FromContext cv Ctx.Background = ""
  /\ Ctx.cv_FromContext cv (Ctx.cv_WithValue other (Ctx.cv_WithValue cv Ctx.Background "a") 123)
     = "a"
  /\ Ctx.cv_FromContext cv (Ctx.cv_WithValue clash (Ctx.cv_WithValue cv Ctx.Background "a") 123)
     = "".
Proof.
  intros cv other clash.
  assert (Hcv : Ctx.faithful cv) by (intros t; reflexivity).
  destruct (ContextValue_store_and_retrieve cv other Ctx.Background "hello" "hello" 0 Hcv)
    as (H1 & _ & H3 & _).
  destruct (ContextValue_store_and_retrieve cv other Ctx.Background "first" "second" 0 Hcv)
    as (_ & H2 & _).
  destruct (ContextValue_store_and_retrieve cv other
              (Ctx.cv_WithValue cv Ctx.Background "a") "" "" 123 Hcv)
    as (_ & _ & _ & H4 & _).
  destruct (ContextValue_store_and_retrieve cv clash Ctx.Background "a" "a" 123 Hcv)
    as (_ & _ & _ & _ & H5).
  split; [exact H1|]. split; [exact H2|]. split; [exact H3|]. split.
  - apply H4. discriminate.
  - apply H5; reflexivity.
Defined.

(** X3. The record of optional annotations that the middleware is
    stated on is the chain of values seen through the three readers:
    the writers and the readers commute with [annotations]. *)
Theorem annotations_refine (ctx : Ctx.context) (n : string) (b : bool) :
  annotations Ctx.Background = Background
  /\ annotations (Ctx.NewNameContext ctx n) = NewNameContext (annotations ctx) n
  /\ annotations (Ctx.NewMaintenanceContext ctx b)
     = NewMaintenanceContext (annotations ctx) b
  /\ annotations (Ctx.NewIsDevelContext ctx b) = NewIsDevelContext (annotations ctx) b
  /\ NameFromContext (annotations ctx) = Ctx.NameFromContext ctx
  /\ MaintenanceFromContext (annotations ctx) = Ctx.MaintenanceFromContext ctx
  /\ IsDevelFromContext (annotations ctx) = Ctx.IsDevelFromContext ctx.
Proof.
  split; [done|]. split; [done|]. split; [done|]. split; [done|].
  unfold NameFromContext, MaintenanceFromContext, IsDevelFromContext,
    Ctx.NameFromContext, Ctx.MaintenanceFromContext, Ctx.IsDevelFromContext,
    annotations. simpl.
  split; [|split].
  - by destruct (Ctx.Value ctx Ctx.nameKey) as [[| |]|].
  - by destruct (Ctx.Value ctx Ctx.maintenanceKey) as [[| |]|].
  - by destruct (Ctx.Value ctx Ctx.isDevelCtx) as [[| |]|].
Qed.

(** ** Validation, beyond duplicates *)

Lemma validateJobs_loop_pass (ParseStandard : string -> option error) (ToLower : string -> string)
    (js : list job) (names : gset string) :
  Forall (parses ParseStandard) js ->
  NoDup (lowered ToLower js) ->
  (forall n, n ∈ lowered ToLower js -> n ∉ names) ->
  validateJobs_loop ParseStandard ToLower names js = ("", None).
Proof.
  revert names. induction js as [|j js IH]; intros names Hok Hnd Hfresh; [done|].
  simpl. unfold lowered in *. rewrite fmap_cons in *.
  apply Forall_cons in Hok as [Hpj Hok]. apply NoDup_cons in Hnd as [Hj Hnd].
  rewrite decide_False by (apply Hfresh; apply list_elem_of_here).
  assert (Hnext : validateJobs_loop ParseStandard ToLower ({[ToLower (name j)]} ∪ names) js
                  = ("", None)).
  { apply IH; [done|done|]. intros n Hn.
    rewrite elem_of_union, elem_of_singleton. intros [->|Hin]; [done|].
    apply (Hfresh n); [|done]. by apply list_elem_of_further. }
  destruct (IsActive (schedule j)) eqn:Hact; [|done]. by rewrite (Hpj Hact).
Qed.

Lemma validateJobs_valid (ParseStandard : string -> option error)
    (ToLower : string -> string) (cm : Manager) :
  validateJobs ParseStandard ToLower cm = ("", None)
  <-> NoDup (lowered ToLower (jobs cm)) /\ Forall (parses ParseStandard) (jobs cm).
Proof.
  unfold validateJobs. split.
  - intros Hv. destruct (validateJobs_loop_ok ParseStandard ToLower _ _ Hv) as (Hok & Hnd & _).
    done.
  - intros [Hnd Hok]. apply validateJobs_loop_pass; [done|done|].
    intros n _. apply not_elem_of_empty.
Qed.

(** X4. Validation passes exactly when the names of the registry
    are pairwise different after [strings.ToLower] and every active
    schedule parses.  [ToLower] is any function: the statement holds
    of the one of the Go library, with its Unicode lowering. *)
Theorem validateJobs_passes_iff (ParseStandard : string -> option error)
    (ToLower : string -> string) (cm : Manager) :
  validateJobs ParseStandard ToLower cm = ("", None)
  <-> NoDup (lowered ToLower (jobs cm)) /\ Forall (parses ParseStandard) (jobs cm).
Proof. apply validateJobs_valid. Qed.

Lemma validateJobs_loop_bad_schedule (ParseStandard : string -> option error)
    (ToLower : string -> string)
    (pre post : list job) (bad : job) (e : error) (names : gset string) :
  Forall (parses ParseStandard) pre ->
  NoDup (lowered ToLower (pre ++ [bad])) ->
  (forall n, n ∈ lowered ToLower (pre ++ [bad]) -> n ∉ names) ->
  IsActive (schedule bad) = true ->
  ParseStandard (schedule bad) = Some e ->
  validateJobs_loop ParseStandard ToLower names (pre ++ bad :: post) = (name bad, Some e).
Proof.
  revert names. induction pre as [|j pre IH]; intros names Hok Hnd Hfresh Hact Hbad.
  - simpl. rewrite decide_False by (apply Hfresh; apply list_elem_of_here).
    by rewrite Hact, Hbad.
  - simpl. unfold lowered in *. simpl in Hnd, Hfresh.
    apply Forall_cons in Hok as [Hpj Hok]. apply NoDup_cons in Hnd as [Hj Hnd].
    rewrite decide_False by (apply Hfresh; apply list_elem_of_here).
    assert (Hnext : validateJobs_loop ParseStandard ToLower ({[ToLower (name j)]} ∪ names)
                      (pre ++ bad :: post) = (name bad, Some e)).
    { apply IH; [done|done| |done|done]. intros n Hn.
      rewrite elem_of_union, elem_of_singleton. intros [->|Hin]; [done|].
      apply (Hfresh n); [|done]. by apply list_elem_of_further. }
    destruct (IsActive (schedule j)) eqn:Hactj; [|done]. by rewrite (Hpj Hactj).
Qed.

(** X5. When the first job that fails validation fails on its
    schedule (the names up to and including it are pairwise different
    after [strings.ToLower] and the schedules before it parse),
    validation returns the name of that job and the error of the
    parser.  [ToLower] is any function. *)
Theorem validateJobs_first_bad_schedule (ParseStandard : string -> option error)
    (ToLower : string -> string)
    (cm : Manager) (pre post : list job) (bad : job) (e : error) :
  jobs cm = pre ++ bad :: post ->
  Forall (parses ParseStandard) pre ->
  NoDup (lowered ToLower (pre ++ [bad])) ->
  IsActive (schedule bad) = true ->
  ParseStandard (schedule bad) = Some e ->
  validateJobs ParseStandard ToLower cm = (name bad, Some e).
Proof.
  intros Hjobs Hok Hnd Hact Hbad. unfold validateJobs. rewrite Hjobs.
  apply validateJobs_loop_bad_schedule; [done|done| |done|done].
  intros n _. apply not_elem_of_empty.
Qed.

Lemma validateJobs_first_bad_schedule_f3 :
  validateJobs five_fields ToLower_ascii (AddFunc "f3" "invalid" (newCronFunc "f3") manager_f1_f2)
  = ("f3", Some (Opaque "expected exactly 5 fields")).
Proof.
  apply (validateJobs_first_bad_schedule five_fields ToLower_ascii
           (AddFunc "f3" "invalid" (newCronFunc "f3") manager_f1_f2)
           (jobs manager_f1_f2) [] (newJob "f3" "invalid" (newCronFunc "f3") false)
           (Opaque "expected exactly 5 fields")).
  - reflexivity.
  - repeat constructor.
  - by_evaluation.
  - reflexivity.
  - reflexivity.
Defined.

(** ** Activation as a map over the registry *)

Section RunRefinement.

Variable ParseStandard : string -> option error.
Variable now : nat -> Time.

Lemma insert_middle (done rest : list job) (j j' : job) :
  <[length done := j']> (done ++ j :: rest) = done ++ j' :: rest.
Proof.
  rewrite insert_app_r_alt by done. by rewrite Nat.sub_diag.
Qed.

Lemma Run_iter_exact (cm : Manager) (done rest : list job) (j : job) :
  jobs cm = done ++ j :: rest ->
  parses ParseStandard j ->
  Run_iter ParseStandard (now (length done)) cm (length done)
  = inl {| cron :=
             if IsActive (schedule j)
             then {| entries := entries (cron cm) ++
                                [{| ID := nextID (cron cm) + 1; Prev := 0; Next := 0;
                                    entry_spec := schedule j;
                                    entry_job := closure_of (length done) j |}];
                     nextID := nextID (cron cm) + 1;
                     running := running (cron cm) |}
             else cron cm;
           middleware := middleware cm;
           jobs := done ++ activate_job now (length done) (nextID (cron cm)) j :: rest |}.
Proof.
  intros Hjobs Hp. unfold Run_iter, activate_job.
  assert (Hj : jobs cm !! length done = Some j) by (rewrite Hjobs; apply list_lookup_middle; done).
  rewrite Hj. destruct (IsActive (schedule j)) eqn:Hact; simpl.
  - unfold cron_AddFunc. rewrite (Hp Hact). unfold updateID. simpl. rewrite Hj.
    unfold set_jobs. simpl. by rewrite Hjobs, insert_middle.
  - unfold updateID. rewrite Hj. unfold updateState, set_jobs. simpl.
    rewrite Hjobs, insert_middle, list_lookup_middle by done.
    simpl. by rewrite insert_middle.
Qed.

Lemma Run_loop_exact (todo done : list job) (cm : Manager) :
  jobs cm = done ++ todo ->
  Forall (parses ParseStandard) todo ->
  Run_loop ParseStandard now cm (seq (length done) (length todo))
  = inl {| cron :=
             {| entries := entries (cron cm)
                           ++ activate_entries (length done) (nextID (cron cm)) todo;
                nextID := nextID (cron cm) + count_active todo;
                running := running (cron cm) |};
           middleware := middleware cm;
           jobs := done ++ activate_jobs now (length done) (nextID (cron cm)) todo |}.
Proof.
  revert done cm. induction todo as [|j rest IH]; intros done cm Hjobs Hok.
  - simpl. rewrite !app_nil_r, Z.add_0_r. rewrite <- (app_nil_r done), <- Hjobs.
    by destruct cm as [[es n r] mw js].
  - apply Forall_cons in Hok as [Hpj Hok].
    cbn [length seq Run_loop]. rewrite (Run_iter_exact cm done rest j Hjobs Hpj).
    specialize (IH (done ++ [activate_job now (length done) (nextID (cron cm)) j])).
    rewrite length_app in IH. simpl in IH. rewrite Nat.add_1_r in IH.
    rewrite IH; [|by rewrite <- app_assoc|done].
    cbn [cron middleware jobs activate_jobs activate_entries count_active].
    destruct (IsActive (schedule j)); cbn [entries nextID running];
      rewrite <- !app_assoc; cbn [app]; rewrite ?Z.add_assoc, ?Z.add_0_r; reflexivity.
Qed.

End RunRefinement.

Lemma Run_map (ParseStandard : string -> option error) (ToLower : string -> string)
    (now : nat -> Time) (cm : Manager) :
  validateJobs ParseStandard ToLower cm = ("", None) ->
  Run ParseStandard ToLower now cm
  = ({| cron :=
          {| entries := entries (cron cm)
                        ++ activate_entries 0 (nextID (cron cm)) (jobs cm);
             nextID := nextID (cron cm) + count_active (jobs cm);
             running := true |};
        middleware := middleware cm;
        jobs := activate_jobs now 0 (nextID (cron cm)) (jobs cm) |}, None).
Proof.
  intros Hv. unfold Run. rewrite Hv. simpl.
  destruct (validateJobs_loop_ok ParseStandard ToLower _ _ Hv) as (Hok & _ & _).
  pose proof (Run_loop_exact ParseStandard now (jobs cm) [] cm eq_refl Hok) as Hloop.
  cbn [length app] in Hloop. by rewrite Hloop.
Qed.

(** X6. On a manager that passes validation, [Run] is a map over the
    registry in registration order: every job gets its closure; a job
    with an active schedule gets the next identifier of the scheduler
    and one scheduler entry with its schedule and its closure, and
    keeps its state record; a job with an inactive schedule gets the
    identifier [-idx] and the phase [disabled]; the middleware list is
    untouched, the scheduler is started and the result is nil. *)
Theorem Run_is_a_map (ParseStandard : string -> option error) (ToLower : string -> string)
    (now : nat -> Time) (cm : Manager) :
  validateJobs ParseStandard ToLower cm = ("", None) ->
  Run ParseStandard ToLower now cm
  = ({| cron :=
          {| entries := entries (cron cm)
                        ++ activate_entries 0 (nextID (cron cm)) (jobs cm);
             nextID := nextID (cron cm) + count_active (jobs cm);
             running := true |};
        middleware := middleware cm;
        jobs := activate_jobs now 0 (nextID (cron cm)) (jobs cm) |}, None).
Proof. apply Run_map. Qed.

Lemma Run_is_a_map_f5 :
  Run five_fields ToLower_ascii (fun _ => 5) manager_f5
  = ({| cron :=
          {| entries := entries (cron manager_f5)
                        ++ activate_entries 0 (nextID (cron manager_f5)) (jobs manager_f5);
             nextID := nextID (cron manager_f5) + count_active (jobs manager_f5);
             running := true |};
        middleware := middleware manager_f5;
        jobs := activate_jobs (fun _ => 5) 0 (nextID (cron manager_f5)) (jobs manager_f5) |},
     None).
Proof.
  apply (Run_is_a_map five_fields ToLower_ascii (fun _ => 5) manager_f5).
  vm_compute. reflexivity.
Defined.

Lemma activate_jobs_lookup (now : nat -> Time) (js : list job) (idx i : nat) (n : Z) (j : job) :
  js !! i = Some j ->
  activate_jobs now idx n js !! i
  = Some (activate_job now (idx + i) (n + count_active (take i js)) j).
Proof.
  revert idx i n. induction js as [|h js IH]; intros idx i n Hj.
  - by rewrite lookup_nil in Hj.
  - destruct i as [|i]; simpl in *.
    + injection Hj as ->. by rewrite Nat.add_0_r, Z.add_0_r.
    + rewrite (IH (S idx) i _ Hj). do 2 f_equal; [lia|].
      destruct (IsActive (schedule h)); lia.
Qed.

Lemma activate_entries_elem (js : list job) (idx i : nat) (n : Z) (j : job) :
  js !! i = Some j ->
  IsActive (schedule j) = true ->
  {| ID := n + count_active (take i js) + 1; Prev := 0; Next := 0;
     entry_spec := schedule j; entry_job := closure_of (idx + i) j |}
  ∈ activate_entries idx n js.
Proof.
  revert idx i n. induction js as [|h js IH]; intros idx i n Hj Hact.
  - by rewrite lookup_nil in Hj.
  - destruct i as [|i]; simpl in *.
    + injection Hj as ->. rewrite Hact, Nat.add_0_r, Z.add_0_r. apply list_elem_of_here.
    + pose proof (IH (S idx) i (if IsActive (schedule h) then n + 1 else n) Hj Hact) as He.
      replace (S idx + i)%nat with (idx + S i)%nat in He by lia.
      destruct (IsActive (schedule h)).
      * apply list_elem_of_further.
        by replace (n + (1 + count_active (take i js))) with (n + 1 + count_active (take i js))
          by lia.
      * by replace (n + (0 + count_active (take i js))) with (n + count_active (take i js))
          by lia.
Qed.

Lemma activate_entries_ids (js : list job) (idx : nat) (n : Z) :
  Forall (fun e => n < ID e) (activate_entries idx n js)
  /\ NoDup (ID <$> activate_entries idx n js).
Proof.
  revert idx n. induction js as [|h js IH]; intros idx n; simpl.
  - split; constructor.
  - destruct (IsActive (schedule h)).
    + destruct (IH (S idx) (n + 1)) as [Hgt Hnd]. split.
      * constructor; [simpl; lia|]. eapply Forall_impl; [exact Hgt|]. simpl. intros; lia.
      * rewrite fmap_cons. apply NoDup_cons. split; [|done]. simpl.
        intros Hin. apply list_elem_of_fmap in Hin as (e & He & Hin).
        rewrite Forall_forall in Hgt. specialize (Hgt e Hin). lia.
    + apply IH.
Qed.

Lemma entryIndex_lookup (es : list Entry) (e : Entry) :
  NoDup (ID <$> es) -> e ∈ es -> entryIndex es !! ID e = Some e.
Proof.
  unfold entryIndex.
  assert (Hgen : forall (m : gmap Z Entry),
             NoDup (ID <$> es) ->
             (e ∈ es \/ (m !! ID e = Some e /\ ID e ∉ ID <$> es)) ->
             foldl (fun m x => <[ID x := x]> m) m es !! ID e = Some e).
  { induction es as [|x es IH]; intros m Hnd Hor; simpl.
    - destruct Hor as [Hin|[Hm _]]; [by apply elem_of_nil in Hin|done].
    - rewrite fmap_cons in Hnd. apply NoDup_cons in Hnd as [Hx Hnd].
      apply IH; [done|]. destruct Hor as [Hin|[Hm Hout]].
      + apply elem_of_cons in Hin as [->|Hin]; [|by left].
        right. split; [by rewrite lookup_insert_eq|done].
      + rewrite fmap_cons, not_elem_of_cons in Hout. destruct Hout as [Hne Hout].
        right. split; [|done]. by rewrite lookup_insert_ne. }
  intros Hnd Hin. apply Hgen; [done|by left].
Qed.

Lemma entries_unique (es : list Entry) (e e' : Entry) :
  NoDup (ID <$> es) -> e ∈ es -> e' ∈ es -> ID e' = ID e -> e' = e.
Proof.
  intros Hnd He He' Hid.
  pose proof (entryIndex_lookup _ _ Hnd He) as L.
  pose proof (entryIndex_lookup _ _ Hnd He') as L'.
  rewrite Hid, L in L'. by injection L'.
Qed.

(** X7. After [Run] on a newly built manager that passes validation,
    a job with an active schedule holds the identifier of exactly one
    scheduler entry; the entry carries the schedule of the job and a
    closure for its position, name, flag and function; identifiers
    are positive and no two entries share one; the job's state record
    is as registered. *)
Theorem Run_registers_active_job (ParseStandard : string -> option error)
    (ToLower : string -> string)
    (now : nat -> Time) (cm : Manager) (idx : nat) (j : job) :
  cron cm = cron_New ->
  validateJobs ParseStandard ToLower cm = ("", None) ->
  jobs cm !! idx = Some j ->
  IsActive (schedule j) = true ->
  exists j' e,
    jobs (fst (Run ParseStandard ToLower now cm)) !! idx = Some j'
    /\ e ∈ entries (cron (fst (Run ParseStandard ToLower now cm)))
    /\ ID e = id j'
    /\ 1 <= id j'
    /\ entry_spec e = schedule j
    /\ entry_job e = closure_of idx j
    /\ cronFn j' = Some (closure_of idx j)
    /\ last j' = last j
    /\ NoDup (ID <$> entries (cron (fst (Run ParseStandard ToLower now cm))))
    /\ (forall e', e' ∈ entries (cron (fst (Run ParseStandard ToLower now cm))) ->
                   ID e' = id j' -> e' = e).
Proof.
  intros Hc Hv Hj Hact. rewrite (Run_map ParseStandard ToLower now cm Hv), Hc. simpl.
  pose proof (activate_jobs_lookup now (jobs cm) 0 idx 0 j Hj) as Hj'.
  pose proof (activate_entries_elem (jobs cm) 0 idx 0 j Hj Hact) as He.
  destruct (activate_entries_ids (jobs cm) 0 0) as [Hgt Hnd].
  eexists _, _. split; [exact Hj'|]. split; [exact He|].
  unfold activate_job. rewrite Hact. simpl.
  split; [lia|]. split.
  { rewrite Forall_forall in Hgt. specialize (Hgt _ He). simpl in Hgt. lia. }
  split; [done|]. split; [done|]. split; [done|]. split; [done|]. split; [done|].
  intros e' He' Hid. apply (entries_unique _ _ _ Hnd He He'). simpl. lia.
Qed.

Lemma Run_registers_active_job_f1 :
  exists j' e,
    jobs (fst (Run five_fields ToLower_ascii (fun _ => 5) manager_f5)) !! 1%nat = Some j'
    /\ e ∈ entries (cron (fst (Run five_fields ToLower_ascii (fun _ => 5) manager_f5)))
    /\ ID e = id j'
    /\ 1 <= id j'
    /\ entry_spec e = "* * * * *"
    /\ entry_job e = closure_of 1 (newJob "f1" "* * * * *" (newCronFunc "f1") false)
    /\ cronFn j' = Some (closure_of 1 (newJob "f1" "* * * * *" (newCronFunc "f1") false))
    /\ last j' = last (newJob "f1" "* * * * *" (newCronFunc "f1") false)
    /\ NoDup (ID <$> entries (cron (fst (Run five_fields ToLower_ascii (fun _ => 5) manager_f5))))
    /\ (forall e', e' ∈ entries (cron (fst (Run five_fields ToLower_ascii (fun _ => 5) manager_f5))) ->
                   ID e' = id j' -> e' = e).
Proof.
  apply (Run_registers_active_job five_fields ToLower_ascii (fun _ => 5) manager_f5 1
           (newJob "f1" "* * * * *" (newCronFunc "f1") false)).
  - reflexivity.
  - vm_compute. reflexivity.
  - reflexivity.
  - reflexivity.
Defined.

(** X8. [State] returns one record per job, in registration order.
    When the identifiers of the scheduler entries are pairwise
    different, the record of a job carries the previous and next fire
    times of the entry that has the job's identifier, and zero times
    when no entry has it. *)
Theorem State_merges_by_id (cm : Manager) (idx : nat) (j : job) :
  NoDup (ID <$> entries (cron cm)) ->
  jobs cm !! idx = Some j ->
  length (State cm) = length (jobs cm)
  /\ exists st,
      State cm !! idx = Some st
      /\ st_ID st = id j
      /\ st_Name st = name j
      /\ st_LastState st = cronState_string (state (last j))
      /\ st_LastErr st = err (last j)
      /\ st_LastDuration st = duration (last j)
      /\ (forall e, e ∈ entries (cron cm) -> ID e = id j ->
                    st_LastRun st = Prev e /\ st_NextRun st = Next e)
      /\ ((forall e, e ∈ entries (cron cm) -> ID e <> id j) ->
          st_LastRun st = 0 /\ st_NextRun st = 0).
Proof.
  intros Hnd Hj. unfold State. split; [apply length_fmap|].
  rewrite list_lookup_fmap, Hj. simpl. eexists. split; [reflexivity|].
  unfold State_of_job. simpl.
  split; [done|]. split; [done|]. split; [done|]. split; [done|]. split; [done|]. split.
  - intros e He Hid. rewrite <- Hid, (entryIndex_lookup _ _ Hnd He). done.
  - intros Hnone. rewrite entryIndex_fresh; [done|].
    apply Forall_forall. intros e He. by apply Hnone.
Qed.

Lemma State_merges_by_id_f5 :
  length (State (fst (Run five_fields ToLower_ascii (fun _ => 5) manager_f5)))
  = length (jobs (fst (Run five_fields ToLower_ascii (fun _ => 5) manager_f5)))
  /\ exists st,
      State (fst (Run five_fields ToLower_ascii (fun _ => 5) manager_f5)) !! 1%nat = Some st
      /\ st_ID st = 1
      /\ st_Name st = "f1"
      /\ st_LastState st = "idle"
      /\ st_LastErr st = None
      /\ st_LastDuration st = 0
      /\ (forall e, e ∈ entries (cron (fst (Run five_fields ToLower_ascii (fun _ => 5) manager_f5))) ->
                    ID e = 1 -> st_LastRun st = Prev e /\ st_NextRun st = Next e)
      /\ ((forall e, e ∈ entries (cron (fst (Run five_fields ToLower_ascii (fun _ => 5) manager_f5))) ->
                     ID e <> 1) ->
          st_LastRun st = 0 /\ st_NextRun st = 0).
Proof.
  apply (State_merges_by_id (fst (Run five_fields ToLower_ascii (fun _ => 5) manager_f5)) 1
           (set_id_cronFn 1 (closure_of 1 (newJob "f1" "* * * * *" (newCronFunc "f1") false))
              (newJob "f1" "* * * * *" (newCronFunc "f1") false))).
  - by_evaluation.
  - reflexivity.
Defined.

(** X9. [ManualRun] with a name that [strings.EqualFold] matches
    with no registered name returns [ErrNotFound]; the manager and the
    world are left as they were, so no state record changes and no
    job function runs.  [EqualFold] is any function: the statement
    holds of the one of the Go library. *)
Theorem ManualRun_unknown_name (EqualFold : string -> string -> bool)
    (cm : Manager) (ctx : Context) (id : string) (w : World) :
  Forall (fun j => EqualFold (name j) id = false) (jobs cm) ->
  ManualRun EqualFold cm ctx id w = (cm, w, Returned (Some (Sentinel ErrNotFound))).
Proof.
  intros Hnone. unfold ManualRun.
  assert (Hfind : List.find (fun j => EqualFold (name j) id) (jobs cm) = None).
  { induction Hnone as [|j js Hj _ IH]; simpl; [done|]. by rewrite Hj. }
  by rewrite Hfind.
Qed.

Lemma ManualRun_unknown_name_f9 :
  ManualRun EqualFold_ascii manager_guarded Background "f9" (mkWorld ∅ 0 [])
  = (manager_guarded, mkWorld ∅ 0 [], Returned (Some (Sentinel ErrNotFound))).
Proof.
  apply (ManualRun_unknown_name EqualFold_ascii manager_guarded Background "f9"
           (mkWorld ∅ 0 [])).
  repeat constructor.
Defined.

(** X10. [updateState] touches the state record of job [idx] only:
    the other jobs, the length of the registry, the middleware list
    and the scheduler are unchanged, and so are the identifier, name,
    schedule, flag, function and closure of job [idx] itself.  The
    record it stores carries the time of the call, and its error
    never matches the skip sentinel. *)
Theorem updateState_frame (cm : Manager) (idx : nat) (j : job) (st : cronState)
    (e : option error) (tSince tNow : Time) :
  jobs cm !! idx = Some j ->
  length (jobs (updateState idx st e tSince tNow cm)) = length (jobs cm)
  /\ middleware (updateState idx st e tSince tNow cm) = middleware cm
  /\ cron (updateState idx st e tSince tNow cm) = cron cm
  /\ (forall k, k <> idx ->
                jobs (updateState idx st e tSince tNow cm) !! k = jobs cm !! k)
  /\ exists j',
      jobs (updateState idx st e tSince tNow cm) !! idx = Some j'
      /\ set_last (last j) j' = j
      /\ updatedAt (last j') = tNow
      /\ errors_Is (err (last j')) ErrSkipped = false.
Proof.
  intros Hj. split; [apply updateState_length|]. split; [apply updateState_middleware|].
  split; [apply updateState_cron|]. split.
  { intros k Hk. by apply updateState_lookup_ne. }
  eexists. split; [by apply updateState_lookup|]. split; [by destruct j|].
  simpl. rewrite updateState_last_updatedAt. split; [done|].
  unfold updateState_last. destruct (errors_Is e ErrSkipped) eqn:He; simpl; done.
Qed.

Lemma updateState_frame_running :
  length (jobs (updateState 0 stateIdle (Some (Opaque "boom")) 25 26 manager_running))
  = length (jobs manager_running)
  /\ middleware (updateState 0 stateIdle (Some (Opaque "boom")) 25 26 manager_running)
     = middleware manager_running
  /\ cron (updateState 0 stateIdle (Some (Opaque "boom")) 25 26 manager_running)
     = cron manager_running
  /\ (forall k, k <> 0%nat ->
                jobs (updateState 0 stateIdle (Some (Opaque "boom")) 25 26 manager_running) !! k
                = jobs manager_running !! k)
  /\ exists j',
      jobs (updateState 0 stateIdle (Some (Opaque "boom")) 25 26 manager_running) !! 0%nat
      = Some j'
      /\ set_last running_since_10 j'
         = set_last running_since_10 (newJob "a" "* * * * *" (newCronFunc "a") false)
      /\ updatedAt (last j') = 26
      /\ errors_Is (err (last j')) ErrSkipped = false.
Proof.
  apply (updateState_frame manager_running 0
           (set_last running_since_10 (newJob "a" "* * * * *" (newCronFunc "a") false))
           stateIdle (Some (Opaque "boom")) 25 26).
  reflexivity.
Defined.

(** ** Activating twice *)

Lemma activate_jobs_same (now : nat -> Time) (js : list job) (idx : nat) (n : Z) :
  Forall2 same_registration js (activate_jobs now idx n js).
Proof.
  revert idx n. induction js as [|j js IH]; intros idx n; simpl; constructor; [|apply IH].
  unfold same_registration, activate_job. by destruct (IsActive (schedule j)).
Qed.

Lemma same_registration_entries (ToLower : string -> string)
    (js js' : list job) (idx : nat) (n : Z) :
  Forall2 same_registration js js' ->
  activate_entries idx n js' = activate_entries idx n js
  /\ count_active js' = count_active js
  /\ lowered ToLower js' = lowered ToLower js.
Proof.
  intros H. revert idx n.
  induction H as [|j j' js js' (Hn & Hs & Hm & Hf) _ IH]; intros idx n; [done|].
  unfold lowered in *. cbn [activate_entries count_active fmap list_fmap].
  unfold closure_of. rewrite Hs, Hn, Hm, Hf.
  destruct (IsActive (schedule j)).
  - destruct (IH (S idx) (n + 1)) as (-> & -> & ->). done.
  - destruct (IH (S idx) n) as (-> & -> & ->). done.
Qed.

Lemma same_registration_parses (ParseStandard : string -> option error) (js js' : list job) :
  Forall2 same_registration js js' ->
  Forall (parses ParseStandard) js -> Forall (parses ParseStandard) js'.
Proof.
  induction 1 as [|j j' js js' (Hn & Hs & Hm & Hf) _ IH]; intros Hok; [constructor|].
  apply Forall_cons in Hok as [Hj Hok]. constructor; [|by apply IH].
  unfold parses in *. by rewrite Hs.
Qed.

Lemma length_activate_entries (js : list job) (idx : nat) (n : Z) :
  Z.of_nat (length (activate_entries idx n js)) = count_active js.
Proof.
  revert idx n. induction js as [|j js IH]; intros idx n; simpl; [done|].
  destruct (IsActive (schedule j)); simpl; rewrite ?Nat2Z.inj_succ, IH; lia.
Qed.

(** X11. [Run] does not guard against a second call.  On a newly built
    manager that passes validation, a second [Run] passes validation
    too and returns nil, and it adds every job with an active schedule
    to the scheduler once more, under new identifiers: the scheduler
    then holds two entries for each of these jobs. *)
Theorem Run_twice_registers_twice (ParseStandard : string -> option error)
    (ToLower : string -> string)
    (now now' : nat -> Time) (cm : Manager) :
  cron cm = cron_New ->
  validateJobs ParseStandard ToLower cm = ("", None) ->
  let once := fst (Run ParseStandard ToLower now cm) in
  let twice := Run ParseStandard ToLower now' once in
  snd twice = None
  /\ entries (cron (fst twice))
     = entries (cron once) ++ activate_entries 0 (count_active (jobs cm)) (jobs cm)
  /\ Z.of_nat (length (entries (cron once))) = count_active (jobs cm)
  /\ Z.of_nat (length (entries (cron (fst twice)))) = 2 * count_active (jobs cm).
Proof.
  intros Hc Hv once twice.
  assert (Honce : once = {| cron := {| entries := activate_entries 0 0 (jobs cm);
                                       nextID := count_active (jobs cm);
                                       running := true |};
                            middleware := middleware cm;
                            jobs := activate_jobs now 0 0 (jobs cm) |}).
  { unfold once. rewrite (Run_map ParseStandard ToLower now cm Hv), Hc. simpl.
    by rewrite Z.add_0_l. }
  pose proof (activate_jobs_same now (jobs cm) 0 0) as Hsame.
  destruct (proj1 (validateJobs_valid ParseStandard ToLower cm) Hv) as [Hnd Hok].
  assert (Hv' : validateJobs ParseStandard ToLower once = ("", None)).
  { apply validateJobs_valid. rewrite Honce. simpl.
    destruct (same_registration_entries ToLower _ _ 0 0 Hsame) as (_ & _ & ->).
    split; [done|]. by eapply same_registration_parses. }
  unfold twice. rewrite (Run_map ParseStandard ToLower now' once Hv').
  rewrite Honce. simpl.
  destruct (same_registration_entries ToLower _ _ 0 (count_active (jobs cm)) Hsame)
    as (-> & _ & _).
  split; [done|]. split; [done|]. split; [apply length_activate_entries|].
  rewrite length_app, Nat2Z.inj_add, !length_activate_entries. lia.
Qed.

Lemma Run_twice_registers_twice_f5 :
  let once := fst (Run five_fields ToLower_ascii (fun _ => 5) manager_f5) in
  let twice := Run five_fields ToLower_ascii (fun _ => 9) once in
  snd twice = None
  /\ entries (cron (fst twice))
     = entries (cron once)
       ++ activate_entries 0 (count_active (jobs manager_f5)) (jobs manager_f5)
  /\ Z.of_nat (length (entries (cron once))) = count_active (jobs manager_f5)
  /\ Z.of_nat (length (entries (cron (fst twice)))) = 2 * count_active (jobs manager_f5).
Proof.
  apply (Run_twice_registers_twice five_fields ToLower_ascii (fun _ => 5) (fun _ => 9) manager_f5).
  - reflexivity.
  - vm_compute. reflexivity.
Defined.

(** ** One run of the closure *)

(** One call of [cronFnCtx] whose chain returns, on the manager the
    call finds and with no other update of the manager between its
    two own. *)
Lemma cronFnCtx_returns (c : closure) (cm : Manager) (ctx : Context)
    (w w' : World) (e : option error) (j : job) :
  jobs cm !! cl_idx c = Some j ->
  wrap (middleware cm) (cl_fn c) (closure_context c ctx) w = (w', Returned e) ->
  exists cm' j',
    cronFnCtx c cm ctx w = (cm', w', Returned e)
    /\ jobs cm' !! cl_idx c = Some j'
    /\ state (last j') = (if errors_Is e ErrSkipped then stateSkipped else stateIdle)
    /\ err (last j') = (if errors_Is e ErrSkipped then None else e)
    /\ duration (last j') = clock w' - clock w
    /\ updatedAt (last j') = clock w'
    /\ same_registration j j'
    /\ (forall k, k <> cl_idx c -> jobs cm' !! k = jobs cm !! k)
    /\ middleware cm' = middleware cm
    /\ cron cm' = cron cm.
Proof.
  intros Hj Hrun. unfold cronFnCtx. cbv zeta. unfold closure_context in Hrun.
  rewrite Hrun.
  pose proof (updateState_lookup cm (cl_idx c) j stateRunning None (clock w) (clock w) Hj)
    as H1.
  eexists _, _. split; [reflexivity|].
  split; [by apply updateState_lookup|]. simpl.
  rewrite updateState_last_state, updateState_last_duration, updateState_last_updatedAt.
  unfold updateState_last at 1 2. simpl.
  split; [done|]. split; [by destruct (errors_Is e ErrSkipped)|].
  split; [done|]. split; [apply updateState_last_updatedAt|].
  split; [by repeat split|]. split.
  { intros k Hk. by rewrite !updateState_lookup_ne. }
  by rewrite !updateState_middleware, !updateState_cron.
Qed.

(** X12. The closure [cronFnCtx] as a sequential function: one call
    on a manager, with no other goroutine updating the manager
    between the opening and the closing update of this call (the
    world [w'] the chain returns in is the world the closing update
    reads the clock of).  When the chain returns, the call returns
    the same error and leaves the state record of its job at [idle]
    with that error, or at [skipped] with a nil error when the error
    matches the skip sentinel; in both cases the recorded duration is
    the time the chain took, the update time is the time of the
    return, and the records of the other jobs are untouched.  Under
    concurrent invocations of the same job the closing update meets
    the record the other invocation left: that is C1 and C5. *)
Theorem cronFnCtx_records_run (c : closure) (cm : Manager) (ctx : Context)
    (w w' : World) (e : option error) (j : job) :
  jobs cm !! cl_idx c = Some j ->
  wrap (middleware cm) (cl_fn c) (closure_context c ctx) w = (w', Returned e) ->
  exists cm' j',
    cronFnCtx c cm ctx w = (cm', w', Returned e)
    /\ jobs cm' !! cl_idx c = Some j'
    /\ state (last j') = (if errors_Is e ErrSkipped then stateSkipped else stateIdle)
    /\ err (last j') = (if errors_Is e ErrSkipped then None else e)
    /\ duration (last j') = clock w' - clock w
    /\ updatedAt (last j') = clock w'
    /\ same_registration j j'
    /\ (forall k, k <> cl_idx c -> jobs cm' !! k = jobs cm !! k)
    /\ middleware cm' = middleware cm
    /\ cron cm' = cron cm.
Proof. apply cronFnCtx_returns. Qed.

(** X13. When the chain panics, the panic leaves the closure and the
    closing update is not made: the state record of the job keeps the
    phase [running] that the opening update stored at the start time,
    with the duration of the run before. *)
Theorem cronFnCtx_panic_leaves_running (c : closure) (cm : Manager) (ctx : Context)
    (w w' : World) (p : panic_value) (j : job) :
  jobs cm !! cl_idx c = Some j ->
  wrap (middleware cm) (cl_fn c) (closure_context c ctx) w = (w', Panicked p) ->
  exists cm' j',
    cronFnCtx c cm ctx w = (cm', w', Panicked p)
    /\ jobs cm' !! cl_idx c = Some j'
    /\ state (last j') = stateRunning
    /\ err (last j') = None
    /\ updatedAt (last j') = clock w
    /\ duration (last j') = duration (last j).
Proof.
  intros Hj Hrun. unfold cronFnCtx. cbv zeta. unfold closure_context in Hrun.
  rewrite Hrun. eexists _, _. split; [reflexivity|].
  split; [by apply updateState_lookup|].
  cbn [last set_last]. rewrite updateState_last_duration, updateState_last_state,
    updateState_last_updatedAt.
  replace (cronState_eqb stateRunning stateIdle) with false by reflexivity.
  rewrite andb_false_r. unfold updateState_last. done.
Qed.

Lemma cronFnCtx_records_run_a :
  exists cm' j',
    cronFnCtx closure_a manager_guarded Background world_7
    = (cm', fst (wrap (middleware manager_guarded) (cl_fn closure_a)
                      (closure_context closure_a Background) world_7), Returned None)
    /\ jobs cm' !! cl_idx closure_a = Some j'
    /\ state (last j') = (if errors_Is None ErrSkipped then stateSkipped else stateIdle)
    /\ err (last j') = (if errors_Is None ErrSkipped then None else None)
    /\ duration (last j')
       = clock (fst (wrap (middleware manager_guarded) (cl_fn closure_a)
                          (closure_context closure_a Background) world_7))
         - clock world_7
    /\ updatedAt (last j')
       = clock (fst (wrap (middleware manager_guarded) (cl_fn closure_a)
                          (closure_context closure_a Background) world_7))
    /\ same_registration
         (set_id_cronFn 1 closure_a (newJob "a" "* * * * *" (newCronFunc "a") false)) j'
    /\ (forall k, k <> cl_idx closure_a -> jobs cm' !! k = jobs manager_guarded !! k)
    /\ middleware cm' = middleware manager_guarded
    /\ cron cm' = cron manager_guarded.
Proof.
  apply (cronFnCtx_records_run closure_a manager_guarded Background world_7
           (fst (wrap (middleware manager_guarded) (cl_fn closure_a)
                      (closure_context closure_a Background) world_7))
           None
           (set_id_cronFn 1 closure_a (newJob "a" "* * * * *" (newCronFunc "a") false))).
  - reflexivity.
  - vm_compute. reflexivity.
Defined.

Lemma cronFnCtx_panic_leaves_running_p :
  exists cm' j',
    cronFnCtx closure_p manager_panicky Background world_7
    = (cm', fst (wrap (middleware manager_panicky) (cl_fn closure_p)
                      (closure_context closure_p Background) world_7),
       Panicked (PanicValue "job test panic"))
    /\ jobs cm' !! cl_idx closure_p = Some j'
    /\ state (last j') = stateRunning
    /\ err (last j') = None
    /\ updatedAt (last j') = clock world_7
    /\ duration (last j')
       = duration (last (set_id_cronFn 1 closure_p
                           (newJob "p" "* * * * *" (newPanicFunc "p") false))).
Proof.
  apply (cronFnCtx_panic_leaves_running closure_p manager_panicky Background world_7
           (fst (wrap (middleware manager_panicky) (cl_fn closure_p)
                      (closure_context closure_p Background) world_7))
           (PanicValue "job test panic")
           (set_id_cronFn 1 closure_p (newJob "p" "* * * * *" (newPanicFunc "p") false))).
  - reflexivity.
  - vm_compute. reflexivity.
Defined.

(** ** Panic containment *)

Lemma WithRecover_contains_panics (runtime_Stack : panic_value -> World -> string) :
  contains_panics (WithRecover runtime_Stack).
Proof.
  intros next ctx w. unfold WithRecover.
  destruct (next ctx w) as [w' [e|p]]; by eexists _, _.
Qed.

Lemma WithSentry_contains_panics (capture : string -> error -> World -> World) :
  contains_panics (WithSentry capture).
Proof.
  intros next ctx w. unfold WithSentry.
  destruct (next ctx w) as [w' [[e|]|p]]; by eexists _, _.
Qed.

(** X14. [WithRecover] and [WithSentry] contain panics, and with a
    unit that contains panics first in the chain the closure always
    returns: its closing update is made, so the state record of the
    job ends at [idle] or [skipped], not at [running].  The error
    that [WithRecover] makes of a panic carries the text of the
    value and the stack trace and wraps nothing, so it never matches
    the skip sentinel, also when the value of the panic is the
    sentinel itself: it is recorded at phase [idle] with that
    error. *)
Theorem contained_chain_returns (m : MiddlewareFunc) (ms : list MiddlewareFunc)
    (c : closure) (cm : Manager) (ctx : Context) (w : World) (j : job) :
  contains_panics m ->
  middleware cm = m :: ms ->
  jobs cm !! cl_idx c = Some j ->
  (forall runtime_Stack, contains_panics (WithRecover runtime_Stack))
  /\ (forall capture, contains_panics (WithSentry capture))
  /\ (exists cm' w' e j',
        cronFnCtx c cm ctx w = (cm', w', Returned e)
        /\ jobs cm' !! cl_idx c = Some j'
        /\ (state (last j') = stateIdle \/ state (last j') = stateSkipped)
        /\ state (last j') <> stateRunning)
  /\ (forall runtime_Stack w1 p,
        m = WithRecover runtime_Stack ->
        wrap ms (cl_fn c) (closure_context c ctx) w = (w1, Panicked p) ->
        let recovered :=
          Opaque ("panic: " +:+ panic_text p +:+ ": " +:+ runtime_Stack p w1) in
        errors_Is (Some recovered) ErrSkipped = false
        /\ exists cm' j',
            cronFnCtx c cm ctx w = (cm', w1, Returned (Some recovered))
            /\ jobs cm' !! cl_idx c = Some j'
            /\ state (last j') = stateIdle
            /\ err (last j') = Some recovered).
Proof.
  intros Hm Hmw Hj.
  split; [apply WithRecover_contains_panics|].
  split; [apply WithSentry_contains_panics|]. split.
  - destruct (Hm (wrap ms (cl_fn c)) (closure_context c ctx) w) as (w' & e & Hrun).
    assert (Hwrap : wrap (middleware cm) (cl_fn c) (closure_context c ctx) w
                    = (w', Returned e)) by (by rewrite Hmw, wrap_cons).
    destruct (cronFnCtx_returns c cm ctx w w' e j Hj Hwrap)
      as (cm' & j' & Heq & Hj' & Hst & _).
    exists cm', w', e, j'. split; [done|]. split; [done|]. rewrite Hst.
    destruct (errors_Is e ErrSkipped); split; auto; discriminate.
  - intros runtime_Stack w1 p -> Hpanic recovered. split; [reflexivity|].
    assert (Hwrap : wrap (middleware cm) (cl_fn c) (closure_context c ctx) w
                    = (w1, Returned (Some recovered))).
    { rewrite Hmw, wrap_cons. unfold WithRecover. by rewrite Hpanic. }
    destruct (cronFnCtx_returns c cm ctx w w1 _ j Hj Hwrap)
      as (cm' & j' & Heq & Hj' & Hst & Herr & _).
    exists cm', j'. done.
Qed.

Lemma contained_chain_returns_p :
  exists cm' j',
    cronFnCtx closure_p manager_recovering Background world_7
    = (cm', emit (EvJob "p") world_7,
       Returned (Some (Opaque "panic: job test panic: goroutine 1 [running]:")))
    /\ jobs cm' !! cl_idx closure_p = Some j'
    /\ state (last j') = stateIdle
    /\ err (last j') = Some (Opaque "panic: job test panic: goroutine 1 [running]:").
Proof.
  destruct (contained_chain_returns (WithRecover goroutine_stack) [WithSkipActive]
              closure_p manager_recovering Background world_7
              (set_id_cronFn 1 closure_p (newJob "p" "* * * * *" (newPanicFunc "p") false)))
    as (_ & _ & _ & Hrecovered).
  - apply WithRecover_contains_panics.
  - reflexivity.
  - reflexivity.
  - destruct (Hrecovered goroutine_stack (emit (EvJob "p") world_7)
                (PanicValue "job test panic") eq_refl) as [_ Hrun].
    + reflexivity.
    + exact Hrun.
Defined.

(** ** Observing middleware *)

(** X15. A run that ends with an error matching the skip sentinel is
    reported in two ways.  [WithLogger] prints it with state
    [skipped] and an empty error text, and [WithSLog] reports it
    through [Print], not [Error]; but [WithMetrics] counts it under
    the state label [error], and [WithSentry] captures it as an
    exception.  All four return the error unchanged. *)
Theorem skipped_run_is_reported_two_ways (next : Func) (ctx : Context) (w w' w1 : World)
    (e : error) (printf : string -> list log_arg -> World -> World) (mgr : string)
    (lg : Logger) (m : Metrics) (app : string)
    (capture : string -> error -> World -> World) :
  errors_Is (Some e) ErrSkipped = true ->
  next ctx w = (w', Returned (Some e)) ->
  next ctx (statActive_Inc m app (NameFromContext ctx) w) = (w1, Returned (Some e)) ->
  let name := NameFromContext ctx in
  WithLogger (Some printf) mgr next ctx w
  = (printf logger_format
            [LStr "skipped"; LStr name; LDur (clock w' - clock w); LStr ""; LStr mgr;
             LBool (MaintenanceFromContext ctx)] w',
     Returned (Some e))
  /\ WithSLog lg next ctx w
     = (lg_Print lg "cron job skipped"
                 [("job", SStr name); ("duration", SDur (clock w' - clock w))] w',
        Returned (Some e))
  /\ (exists w2,
        WithMetrics m app next ctx w
        = (statDurations_Observe m app name "error" (clock w2 - clock w) w2,
           Returned (Some e))
        /\ w2 = statEvaluated_Inc m app name "error" (statActive_Dec m app name w1))
  /\ WithSentry capture next ctx w = (capture name e w', Returned (Some e)).
Proof.
  intros Hskip Hnext Hcounted name. subst name.
  unfold WithLogger, WithSLog, WithMetrics, WithSentry.
  rewrite Hnext, Hcounted, Hskip.
  split; [done|]. split; [done|]. split; [|done].
  eexists. split; reflexivity.
Qed.

Lemma skipped_run_is_reported_two_ways_a :
  let ctx := NewNameContext Background "a" in
  let busy := {| active := {["a"]}; clock := 7; trace := [] |} in
  let printf : string -> list log_arg -> World -> World :=
    fun _ _ w0 => emit (EvExit "printf") w0 in
  let lg := {| lg_Print := fun _ _ w0 => emit (EvExit "Print") w0;
               lg_Error := fun _ _ w0 => emit (EvExit "Error") w0 |} in
  let m := {| statActive_Inc := fun _ _ w0 => emit (EvEnter "active") w0;
              statActive_Dec := fun _ _ w0 => emit (EvExit "active") w0;
              statEvaluated_Inc := fun _ _ st w0 => emit (EvExit st) w0;
              statDurations_Observe := fun _ _ _ _ w0 => w0 |} in
  let capture : string -> error -> World -> World :=
    fun _ _ w0 => emit (EvExit "sentry") w0 in
  let next := WithSkipActive (newCronFunc "a") in
  let name := NameFromContext ctx in
  WithLogger (Some printf) "test-run" next ctx busy
  = (printf logger_format
            [LStr "skipped"; LStr name; LDur (clock busy - clock busy); LStr "";
             LStr "test-run"; LBool (MaintenanceFromContext ctx)] busy,
     Returned (Some (Sentinel ErrSkipped)))
  /\ WithSLog lg next ctx busy
     = (lg_Print lg "cron job skipped"
                 [("job", SStr name); ("duration", SDur (clock busy - clock busy))] busy,
        Returned (Some (Sentinel ErrSkipped)))
  /\ (exists w2,
        WithMetrics m "test" next ctx busy
        = (statDurations_Observe m "test" name "error" (clock w2 - clock busy) w2,
           Returned (Some (Sentinel ErrSkipped)))
        /\ w2 = statEvaluated_Inc m "test" name "error"
                  (statActive_Dec m "test" name (statActive_Inc m "test" name busy)))
  /\ WithSentry capture next ctx busy
     = (capture name (Sentinel ErrSkipped) busy, Returned (Some (Sentinel ErrSkipped))).
Proof.
  intros ctx busy printf lg m capture next.
  apply (skipped_run_is_reported_two_ways next ctx busy busy
           (statActive_Inc m "test" (NameFromContext ctx) busy) (Sentinel ErrSkipped)
           printf "test-run" lg m "test" capture).
  - reflexivity.
  - vm_compute. reflexivity.
  - vm_compute. reflexivity.
Defined.

(** X16. [WithLogger], [WithSLog] and [WithMetrics] do not contain a
    panic of what they wrap and do nothing after it:
    no line is printed, and [WithMetrics] has incremented the gauge of
    active jobs and never decrements it.  [WithLogger] with a nil
    printf function panics itself, after the wrapped function has
    run. *)
Theorem panic_passes_observers (next : Func) (ctx : Context) (w w' w1 : World)
    (p : panic_value) (pf : LogPrintf) (mgr : string) (lg : Logger) (m : Metrics)
    (app : string) :
  next ctx w = (w', Panicked p) ->
  next ctx (statActive_Inc m app (NameFromContext ctx) w) = (w1, Panicked p) ->
  WithLogger pf mgr next ctx w = (w', Panicked p)
  /\ WithSLog lg next ctx w = (w', Panicked p)
  /\ WithMetrics m app next ctx w = (w1, Panicked p)
  /\ (forall (returns : Func) (w2 : World) (e : option error),
        returns ctx w = (w2, Returned e) ->
        WithLogger None mgr returns ctx w = (w2, Panicked NilFuncCall)).
Proof.
  intros Hnext Hcounted. unfold WithLogger, WithSLog, WithMetrics.
  rewrite Hnext, Hcounted. repeat split.
  intros returns w2 e Hret. rewrite Hret.
  destruct (errors_Is e ErrSkipped); [done|]. by destruct e.
Qed.

Lemma panic_passes_observers_p :
  let ctx := NewNameContext Background "p" in
  let lg := {| lg_Print := fun _ _ w0 => emit (EvExit "Print") w0;
               lg_Error := fun _ _ w0 => emit (EvExit "Error") w0 |} in
  let m := {| statActive_Inc := fun _ _ w0 => emit (EvEnter "active") w0;
              statActive_Dec := fun _ _ w0 => emit (EvExit "active") w0;
              statEvaluated_Inc := fun _ _ st w0 => emit (EvExit st) w0;
              statDurations_Observe := fun _ _ _ _ w0 => w0 |} in
  let pf : LogPrintf := Some (fun _ _ w0 => emit (EvExit "printf") w0) in
  let p := PanicValue "job test panic" in
  WithLogger pf "test-run" (newPanicFunc "p") ctx world_7
  = (emit (EvJob "p") world_7, Panicked p)
  /\ WithSLog lg (newPanicFunc "p") ctx world_7 = (emit (EvJob "p") world_7, Panicked p)
  /\ WithMetrics m "test" (newPanicFunc "p") ctx world_7
     = (emit (EvJob "p") (emit (EvEnter "active") world_7), Panicked p)
  /\ (forall (returns : Func) (w2 : World) (e : option error),
        returns ctx world_7 = (w2, Returned e) ->
        WithLogger None "test-run" returns ctx world_7 = (w2, Panicked NilFuncCall)).
Proof.
  intros ctx lg m pf p.
  apply (panic_passes_observers (newPanicFunc "p") ctx world_7
           (emit (EvJob "p") world_7)
           (emit (EvJob "p") (emit (EvEnter "active") world_7))
           p pf "test-run" lg m "test").
  - reflexivity.
  - reflexivity.
Defined.

(** X17. [WithSentry] returns whatever it wraps does, and the hub is
    called exactly when the result is an error.  A panic comes back
    as an error: the value of the panic itself when it is an error,
    so that a panic with the skip sentinel comes back as a skipped
    run, and an error made of its text otherwise.  [WithRecover]
    around [WithSentry], the order of the example, never sees a panic
    and changes nothing; in the other order the panic reaches the hub
    as the error that [WithRecover] built, with the stack trace. *)
Theorem WithSentry_captures (capture : string -> error -> World -> World)
    (runtime_Stack : panic_value -> World -> string)
    (next : Func) (ctx : Context) (w : World) :
  WithRecover runtime_Stack (WithSentry capture next) ctx w = WithSentry capture next ctx w
  /\ WithSentry capture next ctx w
     = (match next ctx w with
        | (w', Returned None) => (w', Returned None)
        | (w', Returned (Some e)) => (capture (NameFromContext ctx) e w', Returned (Some e))
        | (w', Panicked (PanicError e)) =>
            (capture (NameFromContext ctx) e w', Returned (Some e))
        | (w', Panicked (PanicValue v)) =>
            (capture (NameFromContext ctx) (Opaque v) w', Returned (Some (Opaque v)))
        | (w', Panicked NilFuncCall) =>
            (capture (NameFromContext ctx) (Opaque (panic_text NilFuncCall)) w',
             Returned (Some (Opaque (panic_text NilFuncCall))))
        end)
  /\ (forall w', next ctx w = (w', Panicked (PanicError (Sentinel ErrSkipped))) ->
                 WithSentry capture next ctx w
                 = (capture (NameFromContext ctx) (Sentinel ErrSkipped) w',
                    Returned (Some (Sentinel ErrSkipped)))
                 /\ errors_Is (Some (Sentinel ErrSkipped)) ErrSkipped = true)
  /\ WithSentry capture (WithRecover runtime_Stack next) ctx w
     = (match next ctx w with
        | (w', Returned None) => (w', Returned None)
        | (w', Returned (Some e)) => (capture (NameFromContext ctx) e w', Returned (Some e))
        | (w', Panicked p) =>
            let recovered :=
              Opaque ("panic: " +:+ panic_text p +:+ ": " +:+ runtime_Stack p w') in
            (capture (NameFromContext ctx) recovered w', Returned (Some recovered))
        end).
Proof.
  unfold WithRecover, WithSentry, recovered_error.
  destruct (next ctx w) as [w' [[e|]|[|e|v]]]; split; try done.
  all: split; [done|]; split; [|done].
  all: intros w0 H; try discriminate.
  by injection H as -> ->.
Qed.

(** X18. [WithSkipActive] gives the name back: when the name is free
    and the wrapped function leaves the active set as it finds it,
    the active set after the call is the one before it, so a second
    call made after the first has returned is not skipped: it calls
    the wrapped function again and returns its result. *)
Theorem WithSkipActive_sequential (next : Func) (ctx : Context) (w : World) :
  NameFromContext ctx ∉ active w ->
  (forall w0, active (fst (next ctx w0)) = active w0) ->
  let name := NameFromContext ctx in
  let first := WithSkipActive next ctx w in
  active (fst first) = active w
  /\ snd first = snd (next ctx (set_active ({[name]} ∪ active w) w))
  /\ snd (WithSkipActive next ctx (fst first))
     = snd (next ctx (set_active ({[name]} ∪ active w) (fst first))).
Proof.
  intros Hfree Hkeeps name first.
  assert (Hback : forall A : gset string, name ∉ A -> ({[name]} ∪ A) ∖ {[name]} = A).
  { intros A HA. apply set_eq. intros x.
    rewrite elem_of_difference, elem_of_union, elem_of_singleton.
    split; [intros [[->|Hx] Hne]; done|].
    intros Hx. split; [by right|]. intros ->. done. }
  assert (Hfirst : active (fst first) = active w
                   /\ snd first = snd (next ctx (set_active ({[name]} ∪ active w) w))).
  { unfold first, WithSkipActive, skipActive_enter, skipActive_exit. fold name.
    rewrite decide_False by done.
    pose proof (Hkeeps (set_active ({[name]} ∪ active w) w)) as Hk.
    destruct (next ctx (set_active ({[name]} ∪ active w) w)) as [w' r].
    simpl in *. rewrite Hk. split; [by apply Hback|done]. }
  destruct Hfirst as [Hact Hres]. split; [done|]. split; [done|].
  unfold WithSkipActive at 1, skipActive_enter. fold name. rewrite Hact.
  rewrite decide_False by done.
  by destruct (next ctx (set_active ({[name]} ∪ active w) (fst first))).
Qed.

Lemma WithSkipActive_sequential_a :
  let ctx := NewNameContext Background "a" in
  let name := NameFromContext ctx in
  let first := WithSkipActive (newCronFunc "a") ctx world_7 in
  active (fst first) = active world_7
  /\ snd first
     = snd (newCronFunc "a" ctx (set_active ({[name]} ∪ active world_7) world_7))
  /\ snd (WithSkipActive (newCronFunc "a") ctx (fst first))
     = snd (newCronFunc "a" ctx (set_active ({[name]} ∪ active world_7) (fst first))).
Proof.
  intros ctx.
  apply (WithSkipActive_sequential (newCronFunc "a") ctx world_7).
  - by_evaluation.
  - intros w0. reflexivity.
Defined.

(** ** More on the guard under interleaving *)

Section GuardMore.

Import Guard.

Lemma tracked_update (s : System) (tid : nat) (t : thread) (p : pc)
    (cm : Manager) (w : World) :
  tracked s ->
  sys_threads s !! tid = Some t ->
  (forall n, n ∈ active w ->
     (holding (set_pc p t) = true /\ n = cl_name (th_closure t))
     \/ (n ∈ active (sys_world s)
         /\ (holding t = true ->
             holding (set_pc p t) = true \/ n <> cl_name (th_closure t)))) ->
  tracked {| sys_cm := cm; sys_world := w;
             sys_threads := <[tid := set_pc p t]> (sys_threads s) |}.
Proof.
  intros Htr Ht Hcases n Hn. simpl in *.
  assert (Hlt : (tid < length (sys_threads s))%nat) by (eapply lookup_lt_Some; eauto).
  destruct (Hcases n Hn) as [[Hnew ->]|[Hold Hkeep]].
  - exists tid, (set_pc p t). by rewrite list_lookup_insert_eq.
  - destruct (Htr n Hold) as (tid0 & t0 & Ht0 & Hh0 & Hn0).
    destruct (decide (tid0 = tid)) as [->|Hne].
    + rewrite Ht in Ht0. injection Ht0 as <-.
      destruct (Hkeep Hh0) as [Hnew|Hdiff]; [|done].
      exists tid, (set_pc p t). by rewrite list_lookup_insert_eq.
    + exists tid0, t0. by rewrite list_lookup_insert_ne.
Qed.

Lemma step_tracked (a : action) (s s' : System) :
  tracked s -> step a s = Some s' -> tracked s'.
Proof.
  intros Htr Hstep. destruct a as [c|tid r|d]; simpl in Hstep.
  - injection Hstep as <-. intros n Hn. simpl in *.
    destruct (Htr n Hn) as (tid0 & t0 & Ht0 & Hh0 & Hn0).
    exists tid0, t0. split; [|done]. by apply lookup_app_l_Some.
  - destruct (sys_threads s !! tid) as [t|] eqn:Ht; [|discriminate].
    destruct (advance t r (sys_cm s) (sys_world s)) as [[[cm w] p]|] eqn:Hadv;
      [|discriminate].
    injection Hstep as <-. unfold advance in Hadv.
    destruct (th_pc t) as [| | |r'|e|r'] eqn:Hpc.
    + injection Hadv as <- <- <-. apply tracked_update; [done|done|].
      intros n Hn. right. split; [done|]. unfold holding. rewrite Hpc. discriminate.
    + unfold skipActive_enter in Hadv.
      destruct (decide (cl_name (th_closure t) ∈ active (sys_world s))) as [Hbusy|Hfree];
        injection Hadv as <- <- <-; (apply tracked_update; [done|done|]); intros n Hn.
      * right. split; [done|]. unfold holding. rewrite Hpc. discriminate.
      * simpl in Hn. apply elem_of_union in Hn as [Hn|Hn].
        -- left. apply elem_of_singleton in Hn. done.
        -- right. split; [done|]. unfold holding. rewrite Hpc. discriminate.
    + injection Hadv as <- <- <-. apply tracked_update; [done|done|].
      intros n Hn. right. split; [done|]. intros _. by left.
    + destruct r' as [e|pv]; injection Hadv as <- <- <-;
        (apply tracked_update; [done|done|]); intros n Hn; simpl in Hn;
        unfold skipActive_exit in Hn;
        apply elem_of_difference in Hn as [Hn Hne]; rewrite elem_of_singleton in Hne;
        right; (split; [done|]); intros _; by right.
    + injection Hadv as <- <- <-. apply tracked_update; [done|done|].
      intros n Hn. right. split; [done|]. unfold holding. rewrite Hpc. discriminate.
    + discriminate.
  - destruct (0 <=? d)%Z; [|discriminate]. injection Hstep as <-. exact Htr.
Qed.

Lemma run_tracked (acts : list action) (s s' : System) :
  tracked s -> run acts s = Some s' -> tracked s'.
Proof.
  revert s. induction acts as [|a acts IH]; intros s Htr Hrun; simpl in Hrun.
  - by injection Hrun as <-.
  - destruct (step a s) as [s1|] eqn:Hstep; [|discriminate].
    eapply IH; [|exact Hrun]. by eapply step_tracked.
Qed.

Lemma start_tracked (cm : Manager) (t0 : Time) : tracked (start cm t0).
Proof. intros n Hn. simpl in Hn. by apply not_elem_of_empty in Hn. Qed.

(** X19. In every interleaving of invocations behind the guard, no
    two goroutines are inside the job function under the same name;
    and a goroutine at the guard whose name no other goroutine holds
    enters the job function, whatever the goroutines of other names
    are doing. *)
Theorem guard_one_run_per_name (cm : Manager) (t0 : Time) (acts : list action)
    (s : System) :
  run acts (start cm t0) = Some s ->
  (forall tid1 tid2 t1 t2,
      sys_threads s !! tid1 = Some t1 -> sys_threads s !! tid2 = Some t2 ->
      th_pc t1 = InJob -> th_pc t2 = InJob ->
      cl_name (th_closure t1) = cl_name (th_closure t2) ->
      tid1 = tid2)
  /\ (forall tid t r,
        sys_threads s !! tid = Some t ->
        th_pc t = AtGuard ->
        (forall tid' t', sys_threads s !! tid' = Some t' -> holding t' = true ->
                         cl_name (th_closure t') <> cl_name (th_closure t)) ->
        exists s', step (Advance tid r) s = Some s' /\ pc_of s' tid = Some InJob).
Proof.
  intros Hrun.
  assert (Hex : exclusive s) by (eapply run_exclusive; [apply start_exclusive|exact Hrun]).
  assert (Htr : tracked s) by (eapply run_tracked; [apply start_tracked|exact Hrun]).
  split.
  - intros tid1 tid2 t1 t2 H1 H2 Hpc1 Hpc2 Hn. destruct Hex as [_ Hone].
    apply (Hone tid1 tid2 t1 t2); auto; unfold holding; by rewrite ?Hpc1, ?Hpc2.
  - intros tid t r Ht Hpc Hothers.
    assert (Hfree : cl_name (th_closure t) ∉ active (sys_world s)).
    { intros Hin. destruct (Htr _ Hin) as (tid' & t' & Ht' & Hh' & Hn').
      by apply (Hothers tid' t'). }
    eexists. split.
    + simpl. rewrite Ht. unfold advance. rewrite Hpc. unfold skipActive_enter.
      rewrite decide_False by done. reflexivity.
    + unfold pc_of. simpl. rewrite list_lookup_insert_eq; [done|].
      eapply lookup_lt_Some; eauto.
Qed.

(** X20. In every interleaving the active set of the guard is the set
    of names held by goroutines that are between the insert and the
    deferred delete: no name stays behind.  When no goroutine is in
    that stretch the set is empty. *)
Theorem guard_active_is_held (cm : Manager) (t0 : Time) (acts : list action)
    (s : System) :
  run acts (start cm t0) = Some s ->
  (forall n, n ∈ active (sys_world s)
             <-> exists tid t, sys_threads s !! tid = Some t
                               /\ holding t = true /\ cl_name (th_closure t) = n)
  /\ ((forall tid t, sys_threads s !! tid = Some t -> holding t = false) ->
      active (sys_world s) = ∅).
Proof.
  intros Hrun.
  assert (Hex : exclusive s) by (eapply run_exclusive; [apply start_exclusive|exact Hrun]).
  assert (Htr : tracked s) by (eapply run_tracked; [apply start_tracked|exact Hrun]).
  split.
  - intros n. split; [apply Htr|].
    intros (tid & t & Ht & Hh & <-). destruct Hex as [Hin _]. by apply (Hin tid t).
  - intros Hnone. apply set_eq. intros n. split.
    + intros Hn. destruct (Htr n Hn) as (tid & t & Ht & Hh & _).
      rewrite (Hnone tid t Ht) in Hh. discriminate.
    + intros Hn. by apply not_elem_of_empty in Hn.
Qed.

End GuardMore.

Lemma guard_one_run_per_name_overlap :
  (forall tid1 tid2 t1 t2,
      Guard.sys_threads overlap_state !! tid1 = Some t1 ->
      Guard.sys_threads overlap_state !! tid2 = Some t2 ->
      Guard.th_pc t1 = Guard.InJob -> Guard.th_pc t2 = Guard.InJob ->
      cl_name (Guard.th_closure t1) = cl_name (Guard.th_closure t2) ->
      tid1 = tid2)
  /\ (forall tid t r,
        Guard.sys_threads overlap_state !! tid = Some t ->
        Guard.th_pc t = Guard.AtGuard ->
        (forall tid' t', Guard.sys_threads overlap_state !! tid' = Some t' ->
                         Guard.holding t' = true ->
                         cl_name (Guard.th_closure t') <> cl_name (Guard.th_closure t)) ->
        exists s', Guard.step (Guard.Advance tid r) overlap_state = Some s'
                   /\ Guard.pc_of s' tid = Some Guard.InJob).
Proof.
  apply (guard_one_run_per_name manager_guarded 0 overlap_at_guard overlap_state).
  vm_compute. reflexivity.
Defined.

Lemma guard_active_is_held_ended :
  (forall n, n ∈ active (Guard.sys_world overlap_ended)
             <-> exists tid t, Guard.sys_threads overlap_ended !! tid = Some t
                               /\ Guard.holding t = true
                               /\ cl_name (Guard.th_closure t) = n)
  /\ ((forall tid t, Guard.sys_threads overlap_ended !! tid = Some t ->
                     Guard.holding t = false) ->
      active (Guard.sys_world overlap_ended) = ∅).
Proof.
  apply (guard_active_is_held manager_guarded 0 overlap_to_end overlap_ended).
  vm_compute. reflexivity.
Defined.

(** X21. A goroutine that runs alone through its sections computes
    what the closure computes as a function: the state of the system
    after its last section is the manager, the world and the result of
    [cronFnCtx] under the chain [[WithSkipActive]].  It has three
    sections when the name is active, four when the job function
    panics and five otherwise. *)
Theorem sections_compute_cronFnCtx (c : closure) (cm : Manager) (w : World) (r : outcome) :
  middleware cm = [WithSkipActive] ->
  cl_fn c = job_body r ->
  let sections :=
    if decide (cl_name c ∈ active w) then 3%nat
    else match r with Returned _ => 5%nat | Panicked _ => 4%nat end in
  Guard.run (Guard.Invoke c :: replicate sections (Guard.Advance 0 r))
            {| Guard.sys_cm := cm; Guard.sys_world := w; Guard.sys_threads := [] |}
  = (let '(cm', w', r') := cronFnCtx c cm Background w in
     Some {| Guard.sys_cm := cm'; Guard.sys_world := w';
             Guard.sys_threads := [{| Guard.th_closure := c;
                                      Guard.th_pc := Guard.Finished r' |}] |})
  /\ Guard.run (Guard.Invoke c :: replicate (S sections) (Guard.Advance 0 r))
               {| Guard.sys_cm := cm; Guard.sys_world := w; Guard.sys_threads := [] |}
     = None.
Proof.
  intros Hmw Hfn sections. split; [by apply goroutine_alone|].
  subst sections. unfold Guard.run.
  destruct (decide (cl_name c ∈ active w)) as [Hin|Hout]; cbn.
  - unfold skipActive_enter.
    destruct (decide (cl_name c ∈ active w)); [|done]. reflexivity.
  - unfold skipActive_enter.
    destruct r as [e|pv]; cbn; unfold skipActive_enter;
      (destruct (decide (cl_name c ∈ active w)); [done|]); reflexivity.
Qed.

Lemma sections_compute_cronFnCtx_a :
  let c := {| cl_idx := 0; cl_name := "a"; cl_isMaintenance := false;
              cl_fn := job_body (Returned None) |} in
  let sections :=
    if decide (cl_name c ∈ active world_7) then 3%nat else 5%nat in
  Guard.run (Guard.Invoke c :: replicate sections (Guard.Advance 0 (Returned None)))
            {| Guard.sys_cm := manager_guarded; Guard.sys_world := world_7;
               Guard.sys_threads := [] |}
  = (let '(cm', w', r') := cronFnCtx c manager_guarded Background world_7 in
     Some {| Guard.sys_cm := cm'; Guard.sys_world := w';
             Guard.sys_threads := [{| Guard.th_closure := c;
                                      Guard.th_pc := Guard.Finished r' |}] |})
  /\ Guard.run (Guard.Invoke c
                  :: replicate (S sections) (Guard.Advance 0 (Returned None)))
               {| Guard.sys_cm := manager_guarded; Guard.sys_world := world_7;
                  Guard.sys_threads := [] |}
     = None.
Proof.
  intros c.
  apply (sections_compute_cronFnCtx c manager_guarded world_7 (Returned None)).
  - reflexivity.
  - reflexivity.
Defined.

(** ** More on the gate under interleaving *)

Section GateMore.

Import Gate.

Lemma step_keeps_finished (a : action) (s s' : System) (tid : nat) (t : thread)
    (r : outcome) :
  step a s = Some s' ->
  sys_threads s !! tid = Some t ->
  th_pc t = Finished r ->
  sys_threads s' !! tid = Some t.
Proof.
  intros Hstep Ht Hpc. destruct a as [c|tid' r']; simpl in Hstep.
  - injection Hstep as <-. simpl. by apply lookup_app_l_Some.
  - destruct (sys_threads s !! tid') as [t'|] eqn:Ht'; [|discriminate].
    destruct (advance t' r' (sys_mutex s)) as [[m p]|] eqn:Hadv; [|discriminate].
    injection Hstep as <-. simpl.
    destruct (decide (tid' = tid)) as [->|Hne].
    + rewrite Ht in Ht'. injection Ht' as <-.
      unfold advance in Hadv. rewrite Hpc in Hadv. discriminate.
    + by rewrite list_lookup_insert_ne.
Qed.

Lemma run_keeps_finished (acts : list action) (s s' : System) (tid : nat) (t : thread)
    (r : outcome) :
  run acts s = Some s' ->
  sys_threads s !! tid = Some t ->
  th_pc t = Finished r ->
  sys_threads s' !! tid = Some t.
Proof.
  revert s. induction acts as [|a acts IH]; intros s Hrun Ht Hpc; simpl in Hrun.
  - by injection Hrun as <-.
  - destruct (step a s) as [s1|] eqn:Hstep; [|discriminate].
    apply (IH s1 Hrun); [|done]. by eapply step_keeps_finished.
Qed.

Lemma holders_none (m : bool) (ts : list thread) :
  (forall tid t, ts !! tid = Some t -> holds t = false) -> holders m ts = 0%nat.
Proof.
  induction ts as [|t ts IH]; intros Hnone; simpl; [done|].
  rewrite IH by (intros tid t' Ht'; apply (Hnone (S tid) t' Ht')).
  unfold weight. by rewrite (Hnone 0%nat t eq_refl).
Qed.

(** X22. The gate does not release its lock when the job function
    panics.  From the moment the job function of a maintenance job has
    panicked inside the gate, no goroutine waiting at the gate can
    ever enter; after the panic of an ordinary job, no maintenance job
    can. *)
Theorem gate_panic_keeps_lock (acts acts' : list action) (s s' : System) (tid : nat)
    (t : thread) (p : panic_value) (tid' : nat) (t' : thread) (r : outcome) :
  run acts start = Some s ->
  sys_threads s !! tid = Some t ->
  th_pc t = Finished (Panicked p) ->
  run acts' s = Some s' ->
  sys_threads s' !! tid' = Some t' ->
  th_pc t' = AtLock ->
  cl_isMaintenance (th_closure t) = true \/ cl_isMaintenance (th_closure t') = true ->
  step (Advance tid' r) s' = None.
Proof.
  intros Hrun Ht Hpc Hrun' Ht' Hpc' Hm.
  assert (Hc : consistent s').
  { eapply run_consistent; [|exact Hrun'].
    eapply run_consistent; [apply start_consistent|exact Hrun]. }
  pose proof (run_keeps_finished _ _ _ _ _ _ Hrun' Ht Hpc) as Hstill.
  destruct Hc as (Hr & Hw & Hx).
  pose proof (holders_lookup (cl_isMaintenance (th_closure t)) _ _ _ Hstill) as Hheld.
  unfold weight, holds in Hheld. rewrite Hpc, eqb_reflx in Hheld. simpl in Hheld.
  simpl. rewrite Ht'. unfold advance. rewrite Hpc'.
  destruct (cl_isMaintenance (th_closure t)) eqn:HisM.
  - assert (Hwr : writer (sys_mutex s') = true).
    { destruct (writer (sys_mutex s')); [done|lia]. }
    unfold Lock, RLock. rewrite Hwr, andb_false_r.
    by destruct (cl_isMaintenance (th_closure t')).
  - destruct Hm as [Hm|Hm]; [discriminate|]. rewrite Hm. unfold Lock.
    destruct (Nat.eqb (readerCount (sys_mutex s')) 0) eqn:Hz; [|done].
    apply Nat.eqb_eq in Hz. lia.
Qed.

(** X23. When every goroutine that entered the gate has returned
    through its release, the lock is free again: no reader is counted
    and no writer is recorded.  An ordinary job at the gate then
    enters at its next section when no maintenance goroutine waits at
    the gate, and a maintenance job when no other goroutine does. *)
Theorem gate_free_after_returns (acts : list action) (s : System) :
  run acts start = Some s ->
  (forall tid t, sys_threads s !! tid = Some t -> holds t = false) ->
  sys_mutex s = {| readerCount := 0; writer := false |}
  /\ (forall tid t r,
        sys_threads s !! tid = Some t ->
        th_pc t = AtLock ->
        (if cl_isMaintenance (th_closure t)
         then alone_at_gate s tid else no_writer_waiting s tid) ->
        exists s', step (Advance tid r) s = Some s'
                   /\ in_job s' tid (cl_isMaintenance (th_closure t))).
Proof.
  intros Hrun Hnone.
  assert (Hc : consistent s) by (eapply run_consistent; [apply start_consistent|exact Hrun]).
  destruct Hc as (Hr & Hw & Hx).
  rewrite (holders_none false _ Hnone) in Hr. rewrite (holders_none true _ Hnone) in Hw.
  assert (Hwr : writer (sys_mutex s) = false).
  { destruct (writer (sys_mutex s)); [discriminate|done]. }
  split.
  { destruct (sys_mutex s) as [rc wr]. simpl in *. by rewrite Hr, Hwr. }
  intros tid t r Ht Hpc _.
  assert (Hlt : (tid < length (sys_threads s))%nat) by (eapply lookup_lt_Some; eauto).
  simpl. rewrite Ht. unfold advance. rewrite Hpc. unfold Lock, RLock. rewrite Hr, Hwr.
  simpl. destruct (cl_isMaintenance (th_closure t)) eqn:HisM; eexists;
    (split; [reflexivity|]); exists (set_pc InJob t); simpl;
    by rewrite list_lookup_insert_eq.
Qed.

End GateMore.

Lemma gate_panic_keeps_lock_writer :
  Gate.step (Gate.Advance 1 (Returned None)) writer_panicked = None.
Proof.
  apply (gate_panic_keeps_lock writer_panics [] writer_panicked writer_panicked 0
           (Gate.mkThread closure_m (Gate.Finished (Panicked (PanicValue "job test panic"))))
           (PanicValue "job test panic") 1 (Gate.mkThread closure_a Gate.AtLock)
           (Returned None)).
  - vm_compute. reflexivity.
  - reflexivity.
  - reflexivity.
  - reflexivity.
  - reflexivity.
  - reflexivity.
  - left. reflexivity.
Defined.

Lemma gate_free_after_returns_reader :
  Gate.sys_mutex reader_returned = {| Gate.readerCount := 0; Gate.writer := false |}
  /\ (forall tid t r,
        Gate.sys_threads reader_returned !! tid = Some t ->
        Gate.th_pc t = Gate.AtLock ->
        (if cl_isMaintenance (Gate.th_closure t)
         then alone_at_gate reader_returned tid
         else no_writer_waiting reader_returned tid) ->
        exists s', Gate.step (Gate.Advance tid r) reader_returned = Some s'
                   /\ Gate.in_job s' tid (cl_isMaintenance (Gate.th_closure t))).
Proof.
  apply (gate_free_after_returns reader_returns reader_returned).
  - vm_compute. reflexivity.
  - intros [|[|tid]] t Ht; vm_compute in Ht; try discriminate;
      injection Ht as <-; reflexivity.
Defined.

(** ** The manual trigger after activation *)

Lemma find_first (f : job -> bool) (js : list job) :
  match List.find f js with
  | None => Forall (fun x => f x = false) js
  | Some j =>
      exists idx,
        js !! idx = Some j
        /\ f j = true
        /\ (forall k x, (k < idx)%nat -> js !! k = Some x -> f x = false)
  end.
Proof.
  induction js as [|h js IH]; simpl; [constructor|].
  destruct (f h) eqn:Hh.
  - exists 0%nat. split; [done|]. split; [done|]. intros k x Hk. lia.
  - destruct (List.find f js) as [j|].
    + destruct IH as (idx & Hj & Hf & Hfirst). exists (S idx).
      split; [done|]. split; [done|]. intros [|k] x Hk Hx; simpl in Hx.
      * by injection Hx as <-.
      * apply (Hfirst k); [lia|done].
    + by constructor.
Qed.

Lemma activate_jobs_names (now : nat -> Time) (js : list job) (idx : nat) (n : Z) :
  name <$> activate_jobs now idx n js = name <$> js.
Proof.
  revert idx n. induction js as [|j js IH]; intros idx n; simpl; [done|].
  rewrite IH. f_equal. unfold activate_job. by destruct (IsActive (schedule j)).
Qed.

(** X24. After [Run] on a manager that passes validation,
    [ManualRun] never calls a nil function.  It returns [ErrNotFound]
    when [strings.EqualFold] matches the given name with no
    registered name, and otherwise runs the closure of the first job,
    in registration order, whose name it matches with the given one:
    the closure for the position, name, flag and function of that
    job, on the activated manager.  [EqualFold] is any function;
    nothing is assumed of how it relates to the lowering that
    validation compares names under, and a name can match the names
    of several jobs. *)
Theorem ManualRun_runs_the_named_job (ParseStandard : string -> option error)
    (ToLower : string -> string) (EqualFold : string -> string -> bool)
    (now : nat -> Time) (cm : Manager) (id : string) (ctx : Context) (w : World) :
  validateJobs ParseStandard ToLower cm = ("", None) ->
  (Forall (fun j => EqualFold (name j) id = false) (jobs cm)
   /\ ManualRun EqualFold (fst (Run ParseStandard ToLower now cm)) ctx id w
      = (fst (Run ParseStandard ToLower now cm), w, Returned (Some (Sentinel ErrNotFound))))
  \/ (exists idx j,
        jobs cm !! idx = Some j
        /\ EqualFold (name j) id = true
        /\ (forall k j2, (k < idx)%nat -> jobs cm !! k = Some j2 ->
                         EqualFold (name j2) id = false)
        /\ ManualRun EqualFold (fst (Run ParseStandard ToLower now cm)) ctx id w
           = cronFnCtx (closure_of idx j) (fst (Run ParseStandard ToLower now cm)) ctx w).
Proof.
  intros Hv. rewrite (Run_map ParseStandard ToLower now cm Hv). cbn [fst].
  set (cm' := {| cron := _; middleware := _; jobs := _ |}).
  assert (Hnames : name <$> jobs cm' = name <$> jobs cm) by apply activate_jobs_names.
  pose proof (find_first (fun j => EqualFold (name j) id) (jobs cm)) as Hfind.
  destruct (List.find (fun j => EqualFold (name j) id) (jobs cm)) as [j|] eqn:Hf.
  - right. destruct Hfind as (idx & Hj & Hmatch & Hfirst). exists idx, j.
    split; [done|]. split; [done|]. split; [done|].
    destruct (first_match_at EqualFold _ _ _ _ Hj Hfirst) as (Hsplit & Hlen & Hpre).
    assert (Hun : forall i x, (length (jobs cm) <= i)%nat -> jobs cm !! i = Some x ->
                             jobs cm' !! i = Some x).
    { intros i x Hi Hx. apply lookup_lt_Some in Hx. lia. }
    assert (Hact : forall i x, (i < length (jobs cm))%nat -> jobs cm !! i = Some x ->
                     exists x', jobs cm' !! i = Some x'
                                /\ cronFn x' = Some (closure_of i x)).
    { intros i x Hi Hx. eexists. split.
      - simpl. apply (activate_jobs_lookup now (jobs cm) 0 i _ x Hx).
      - unfold activate_job. by destruct (IsActive (schedule x)). }
    destruct (ManualRun_during_loop EqualFold cm cm' (length (jobs cm)) ctx id w _ _ j
                Hnames Hun Hact Hsplit Hpre Hmatch) as [Hruns _].
    rewrite Hlen in Hruns. apply Hruns. eapply lookup_lt_Some; eauto.
  - left. split; [done|]. unfold ManualRun.
    assert (Hnone : List.find (fun j => EqualFold (name j) id) (jobs cm') = None).
    { clear Hf. revert Hnames Hfind. generalize (jobs cm') (jobs cm).
      intros js' js. revert js'. induction js as [|h js IH]; intros js' Hn Hall.
      - by destruct js'.
      - destruct js' as [|h' js']; [done|]. simpl in Hn. injection Hn as Hh Hn.
        apply Forall_cons in Hall as [Hfalse Hall]. simpl. rewrite Hh, Hfalse.
        by apply IH. }
    by rewrite Hnone.
Qed.

Lemma ManualRun_runs_the_named_job_F5 :
  (Forall (fun j => EqualFold_ascii (name j) "F5" = false) (jobs manager_f5)
   /\ ManualRun EqualFold_ascii (fst (Run five_fields ToLower_ascii (fun _ => 5) manager_f5))
                Background "F5" world_7
      = (fst (Run five_fields ToLower_ascii (fun _ => 5) manager_f5), world_7,
         Returned (Some (Sentinel ErrNotFound))))
  \/ (exists idx j,
        jobs manager_f5 !! idx = Some j
        /\ EqualFold_ascii (name j) "F5" = true
        /\ (forall k j2, (k < idx)%nat -> jobs manager_f5 !! k = Some j2 ->
                         EqualFold_ascii (name j2) "F5" = false)
        /\ ManualRun EqualFold_ascii
                     (fst (Run five_fields ToLower_ascii (fun _ => 5) manager_f5))
                     Background "F5" world_7
           = cronFnCtx (closure_of idx j)
                       (fst (Run five_fields ToLower_ascii (fun _ => 5) manager_f5))
                       Background world_7).
Proof.
  apply (ManualRun_runs_the_named_job five_fields ToLower_ascii EqualFold_ascii (fun _ => 5)
           manager_f5 "F5" Background world_7).
  vm_compute. reflexivity.
Defined.

(** ** A failed validation with a name *)

Lemma validateJobs_loop_named (ParseStandard : string -> option error) (ToLower : string -> string)
    (js : list job) (names : gset string) :
  fst (validateJobs_loop ParseStandard ToLower names js) <> "" ->
  is_Some (snd (validateJobs_loop ParseStandard ToLower names js)).
Proof.
  revert names. induction js as [|j js IH]; intros names Hname; simpl in *; [done|].
  destruct (decide (ToLower (name j) ∈ names)); [by eexists|].
  destruct (IsActive (schedule j)); [|by apply IH].
  destruct (ParseStandard (schedule j)); [by eexists|by apply IH].
Qed.

(** X25. When validation fails on a job whose name is not empty,
    [Run] returns an error that wraps the error of the validation
    ([errors.Is] sees through it) and whose text is that of the
    validation error, a colon and the name; the manager is returned
    as it was: no job has a closure or an identifier, nothing is
    added to the scheduler and the scheduler is not started. *)
Theorem Run_reports_validation_failure (ParseStandard : string -> option error)
    (ToLower : string -> string)
    (now : nat -> Time) (cm : Manager) :
  fst (validateJobs ParseStandard ToLower cm) <> "" ->
  exists e,
    snd (validateJobs ParseStandard ToLower cm) = Some e
    /\ Run ParseStandard ToLower now cm
       = (cm, Some (Wrapped (Error e +:+ ": " +:+ fst (validateJobs ParseStandard ToLower cm)) e))
    /\ (forall target,
          errors_Is (snd (Run ParseStandard ToLower now cm)) target = errors_Is (Some e) target).
Proof.
  intros Hname.
  destruct (validateJobs_loop_named ParseStandard ToLower (jobs cm) ∅ Hname) as [e He].
  exists e. split; [exact He|]. unfold Run.
  unfold validateJobs in *.
  destruct (validateJobs_loop ParseStandard ToLower ∅ (jobs cm)) as [nm e'] eqn:Hv.
  simpl in *. subst e'.
  destruct (String.eqb nm "") eqn:Heq; [by apply String.eqb_eq in Heq|].
  simpl. split; reflexivity.
Qed.

Lemma Run_reports_validation_failure_F1 :
  exists e,
    snd (validateJobs five_fields ToLower_ascii manager_f1_F1) = Some e
    /\ Run five_fields ToLower_ascii (fun _ => 5) manager_f1_F1
       = (manager_f1_F1,
          Some (Wrapped (Error e +:+ ": " +:+ fst (validateJobs five_fields ToLower_ascii manager_f1_F1)) e))
    /\ (forall target,
          errors_Is (snd (Run five_fields ToLower_ascii (fun _ => 5) manager_f1_F1)) target
          = errors_Is (Some e) target).
Proof.
  apply (Run_reports_validation_failure five_fields ToLower_ascii (fun _ => 5) manager_f1_F1).
  vm_compute. discriminate.
Defined.
